(** * ChemCompMoleculeProvider: the chemical component definition cache

    A shallow embedding of [rcsb/utils/chem/ChemCompMoleculeProvider.py]:
    the provider either reloads a serialized dictionary of component
    definitions or fetches, reads, keys, filters and serializes the source
    dictionaries.  Python dictionaries are finite maps, exceptions are an
    explicit result type, and the calls made on the I/O utilities
    ([MarshalUtil], [FileUtil]) are recorded in a trace. *)

From Stdlib Require Import ZArith Ascii.
From stdpp Require Import gmap strings list sorting fin_maps.

Local Open Scope string_scope.
Local Open Scope list_scope.
Local Open Scope Z_scope.

(** ** The fragment of the Python runtime the provider relies on *)

Module Py.

(** Exceptions derived from [Exception] that the code can meet. *)
Inductive Exn : Type :=
| TypeError
| AttributeError
| KeyError
| IOError.

(** The outcome of evaluating an expression. *)
Inductive Result (A : Type) : Type :=
| Ok (a : A)
| Raise (e : Exn).
Global Arguments Ok {A} a.
Global Arguments Raise {A} e.

(** Truth value of an integer-or-[None] argument: [None] and [0] are
    false, every other integer is true. *)
Definition int_truthy (n : option Z) : bool :=
  match n with
  | None => false
  | Some z => negb (z =? 0)
  end.

(** Truth value of a string-or-[None] argument. *)
Definition str_truthy (s : option string) : bool :=
  match s with
  | None | Some "" => false
  | Some _ => true
  end.

(** The slice [l[:n]]: a negative bound counts from the end. *)
Definition slice_to {A} (l : list A) (n : Z) : list A :=
  if n <? 0 then take (Z.to_nat (Z.of_nat (length l) + n)) l
  else take (Z.to_nat n) l.

(** [sorted(keys)] on strings: ascending, code point by code point. *)
Definition sorted (l : list string) : list string :=
  merge_sort String.le l.

(** [s.rfind(c)] for a one-character [c]: the last index, or [-1]. *)
Fixpoint rfind_from (c : ascii) (s : string) (i acc : Z) : Z :=
  match s with
  | EmptyString => acc
  | String a s' => rfind_from c s' (i + 1) (if decide (a = c) then i else acc)
  end.
Definition rfind (c : ascii) (s : string) : Z := rfind_from c s 0 (-1).

(** [s[:i]] and [s[i:]] for a natural index. *)
Fixpoint str_take (i : nat) (s : string) : string :=
  match i, s with
  | S i', String a s' => String a (str_take i' s')
  | _, _ => EmptyString
  end.
Fixpoint str_drop (i : nat) (s : string) : string :=
  match i, s with
  | S i', String _ s' => str_drop i' s'
  | _, _ => s
  end.

(** Does some index in [lo, lo + n) hold a character other than [c]? *)
Fixpoint some_other (c : ascii) (s : string) (n : nat) : bool :=
  match n, s with
  | S n', String a s' => if decide (a = c) then some_other c s' n' else true
  | _, _ => false
  end.

(** [os.path.splitext] (posix): the extension starts at the last dot of
    the last path component, leading dots of that component excepted. *)
Definition splitext (p : string) : string * string :=
  let sepIndex := rfind "/"%char p in
  let dotIndex := rfind "."%char p in
  if (sepIndex <? dotIndex)
     && some_other "."%char (str_drop (Z.to_nat (sepIndex + 1)) p)
                   (Z.to_nat (dotIndex - (sepIndex + 1)))
  then (str_take (Z.to_nat dotIndex) p, str_drop (Z.to_nat dotIndex) p)
  else (p, EmptyString).

Definition startswith (c : ascii) (s : string) : bool :=
  match s with
  | String a _ => bool_decide (a = c)
  | EmptyString => false
  end.

Fixpoint endswith (c : ascii) (s : string) : bool :=
  match s with
  | EmptyString => false
  | String a EmptyString => bool_decide (a = c)
  | String _ s' => endswith c s'
  end.

(** [os.path.join(a, b)] (posix). *)
Definition join (a b : string) : string :=
  if startswith "/"%char b then b
  else if bool_decide (a = "") || endswith "/"%char a then a +:+ b
  else a +:+ "/" +:+ b.

End Py.
Import Py.

(** ** Data model *)

(** Modelled from the spec: [PdbxChemCompIt] and the mmCIF data container
    (module [rcsb.utils.chem.PdbxChemComp] and the container class are not
    among the source files).  A record carries its container-level name and
    its logical sub-entries in order; a sub-entry exposes the identity
    field through [getId]. *)
Record PdbxChemComp : Type := { getId : string }.

Record DataContainer : Type := {
  getName : string;
  chemComp : list PdbxChemComp;
}.

Global Instance PdbxChemComp_eq_dec : EqDecision PdbxChemComp.
Proof. solve_decision. Defined.
Global Instance DataContainer_eq_dec : EqDecision DataContainer.
Proof. solve_decision. Defined.

(** [next(iter(PdbxChemCompIt(ccObj)), None)]: the first sub-entry, an
    object that counts as true, or [None]. *)
Definition firstChemComp (ccObj : DataContainer) : option PdbxChemComp :=
  head (chemComp ccObj).

(** The dictionary of definitions, keyed by component identifier. *)
Abbreviation Store := (gmap string DataContainer).

(** Values a Python expression of [testCache] can evaluate to. *)
Inductive PyVal : Type :=
| VNone
| VBool (b : bool)
| VDict (d : Store).

Definition truthy (v : PyVal) : bool :=
  match v with
  | VNone => false
  | VBool b => b
  | VDict d => negb (bool_decide (d = ∅))
  end.

(** ** Operations on a constructed provider *)

(** [testCache(minCount, logSizes)]; the size log does not affect the
    result.  [x and y] evaluates to [x] when [x] is false. *)
Definition testCache (ccMolD : option Store) (minCount : option Z) : PyVal :=
  if int_truthy minCount then
    match ccMolD with
    | None => VNone
    | Some d =>
        if truthy (VDict d)
        then VBool (bool_decide (default 0 minCount ≤ Z.of_nat (size d)))
        else VDict d
    end
  else VBool (bool_decide (ccMolD ≠ None)).

(** [testCache()] with the declared default [minCount=29000]. *)
Definition testCache_default (ccMolD : option Store) : PyVal :=
  testCache ccMolD (Some 29000).

Definition getMolD (ccMolD : option Store) : option Store := ccMolD.

(** The subscription [self.__ccMolD[ccId]]. *)
Definition subscript (ccMolD : option Store) (ccId : string)
  : Result DataContainer :=
  match ccMolD with
  | None => Raise TypeError
  | Some d =>
      match d !! ccId with
      | Some ccObj => Ok ccObj
      | None => Raise KeyError
      end
  end.

(** [getMol(ccId)]: the handler logs and falls through to [return None]. *)
Definition getMol (ccMolD : option Store) (ccId : string)
  : Result (option DataContainer) :=
  match subscript ccMolD ccId with
  | Ok ccObj => Ok (Some ccObj)
  | Raise _ => Ok None
  end.

(** ** The I/O utilities and the effects of a construction *)

(** Serialization formats of the cached dictionary ([ccDataFormat]). *)
Inductive DataFormat : Type := Json | Pickle.

Global Instance DataFormat_eq_dec : EqDecision DataFormat.
Proof. solve_decision. Defined.

(** The answers of [MarshalUtil] and [FileUtil] (package [rcsb.utils.io]),
    taken as parameters of a construction.  [doImport] with [fmt="mmcif"]
    yields the list of data containers of a file or raises; with the
    format of the cached dictionary it yields the deserialized object,
    which is [None] when nothing could be deserialized.  The statuses that
    [doExport] and [FileUtil.get] return are only logged, so these two
    calls appear as events alone. *)
Record Env : Type := {
  mU_exists : string → bool;
  mU_doImport_mmcif : string → Result (list DataContainer);
  mU_doImport : string → DataFormat → Result (option Store);
  fU_getFileName : string → string;
  fU_exists : string → bool;
}.

(** Calls with an effect outside the process, in program order. *)
Inductive Event : Type :=
| EvGet (urlTarget filePath : string)
| EvImportMmCif (filePath : string)
| EvImport (filePath : string) (fmt : DataFormat)
| EvExport (filePath : string) (fmt : DataFormat) (ccObjD : Store).

Module Eff.

(** A computation: the calls it made, and its value or the exception
    that ended it. *)
Definition M (A : Type) : Type := list Event * Result A.

Definition ret {A} (a : A) : M A := ([], Ok a).
Definition emit (ev : Event) : M unit := ([ev], Ok tt).
Definition lift {A} (r : Result A) : M A := ([], r).

Definition bind {A B} (m : M A) (f : A → M B) : M B :=
  match m with
  | (t, Ok a) => let '(t', r) := f a in (t ++ t', r)
  | (t, Raise e) => (t, Raise e)
  end.

(** [try: m except Exception as e: h e]. *)
Definition catch {A} (m : M A) (h : Exn → M A) : M A :=
  match m with
  | (t, Ok a) => (t, Ok a)
  | (t, Raise e) => let '(t', r) := h e in (t ++ t', r)
  end.

Definition trace {A} (m : M A) : list Event := m.1.
Definition value {A} (m : M A) : Result A := m.2.

End Eff.
Import Eff.

Notation "'let*' x ':=' m 'in' k" := (bind m (λ x, k))
  (at level 10, x name, m at level 100, k at level 200,
   format "'[v' 'let*'  x  :=  m  'in'  '/' k ']'").

(** ** Building the dictionary *)

Section Build.

Context (env : Env).

(** [__fetchUrl]: the local path is returned whatever the fetch status. *)
Definition fetchUrl (urlTarget dirPath : string) (useCache : bool)
  : M string :=
  let fn := fU_getFileName env urlTarget in
  let filePath := join dirPath fn in
  let* _ := (if negb (useCache && fU_exists env filePath)
             then emit (EvGet urlTarget filePath)
             else ret tt) in
  ret filePath.

(** The key of one record: the identity field of the first sub-entry,
    else the container name. *)
Definition ccIdOf (ccObj : DataContainer) : string :=
  match firstChemComp ccObj with
  | Some ccIt => getId ccIt
  | None => getName ccObj
  end.

(** The loop [for ccObj in ccObjL: ... ccObjD[ccId] = ccObj]. *)
Fixpoint keyLoop (ccObjL : list DataContainer) (ccObjD : Store) : Store :=
  match ccObjL with
  | [] => ccObjD
  | ccObj :: rest => keyLoop rest (<[ccIdOf ccObj := ccObj]> ccObjD)
  end.

Definition importMmCif (filePath : string) : M (list DataContainer) :=
  let* _ := emit (EvImportMmCif filePath) in
  lift (mU_doImport_mmcif env filePath).

(** [rdCcObjL[:molLimit] if molLimit else rdCcObjL]. *)
Definition limitRecords (rdCcObjL : list DataContainer) (molLimit : option Z)
  : list DataContainer :=
  if int_truthy molLimit
  then slice_to rdCcObjL (default 0 molLimit)
  else rdCcObjL.

(** The statements of [__readComponentDefinitions] up to the loop: the
    list [ccObjL] of records to key. *)
Definition readRecords (ccdFilePath : string) (birdFilePath : option string)
    (molLimit : option Z) : M (list DataContainer) :=
  let* rdCcObjL := importMmCif ccdFilePath in
  let* rdCcObjL :=
    (if str_truthy birdFilePath
     then let* birdCcObjL := importMmCif (default "" birdFilePath) in
          ret (rdCcObjL ++ birdCcObjL)
     else ret rdCcObjL) in
  ret (limitRecords rdCcObjL molLimit).

(** [__readComponentDefinitions]: [ccObjD] is empty until the loop runs,
    so that is what the handler leaves to be returned. *)
Definition readComponentDefinitions (ccdFilePath : string)
    (birdFilePath : option string) (molLimit : option Z) : M Store :=
  catch (let* ccObjL := readRecords ccdFilePath birdFilePath molLimit in
         ret (keyLoop ccObjL ∅))
        (λ _, ret ∅).

(** [os.path.join(dirPath, "%s-data.pic" % prefix)]. *)
Definition ccDataFilePathOf (dirPath ccFileNamePrefix : string) : string :=
  join dirPath (ccFileNamePrefix +:+ "-data.pic").

(** [ccDataFormat = "json" if fExt == "json" else "pickle"], with [fExt]
    the extension [os.path.splitext] gives. *)
Definition formatOfExt (fExt : string) : DataFormat :=
  if bool_decide (fExt = "json") then Json else Pickle.
Definition ccDataFormatOf (ccDataFilePath : string) : DataFormat :=
  formatOfExt (splitext ccDataFilePath).2.

(** [{k: rdCcObjD[k] for k in keys}]. *)
Fixpoint selectKeys (rdCcObjD : Store) (keys : list string) (acc : Store)
  : Result Store :=
  match keys with
  | [] => Ok acc
  | k :: rest =>
      match rdCcObjD !! k with
      | Some ccObj => selectKeys rdCcObjD rest (<[k := ccObj]> acc)
      | None => Raise KeyError
      end
  end.

(** The keys of a dictionary, in the order [keys()] lists them. *)
Definition keys (d : Store) : list string := (map_to_list d).*1.

(** The reloaded dictionary cut to the molecule limit (line 86). *)
Definition limitReloaded (rdCcObjD : option Store) (molLimit : option Z)
  : Result (option Store) :=
  if int_truthy molLimit then
    match rdCcObjD with
    | None => Raise AttributeError
    | Some d =>
        match selectKeys d (slice_to (sorted (keys d)) (default 0 molLimit)) ∅ with
        | Ok d' => Ok (Some d')
        | Raise e => Raise e
        end
    end
  else Ok rdCcObjD.

(** The filter of a fresh build (line 92): a missing or empty filter
    keeps every record. *)
Definition filter_truthy (filterIdD : option (gset string)) : bool :=
  match filterIdD with
  | None => false
  | Some ids => negb (bool_decide (ids = ∅))
  end.

Definition applyFilter (rdCcObjD : Store) (filterIdD : option (gset string))
  : Store :=
  if filter_truthy filterIdD
  then filter (λ kv, kv.1 ∈ default ∅ filterIdD) rdCcObjD
  else rdCcObjD.

(** [len(ccObjD)], evaluated for the closing log message of [__reload]. *)
Definition len (ccObjD : option Store) : Result nat :=
  match ccObjD with
  | Some d => Ok (size d)
  | None => Raise TypeError
  end.

(** [__reload]. *)
Definition reload (ccFileNamePrefix ccUrlTarget birdUrlTarget dirPath : string)
    (useCache : bool) (molLimit : option Z)
    (filterIdD : option (gset string)) : M (option Store) :=
  let ccDataFilePath := ccDataFilePathOf dirPath ccFileNamePrefix in
  let ccDataFormat := ccDataFormatOf ccDataFilePath in
  let* ccObjD :=
    (if useCache && mU_exists env ccDataFilePath then
       let* _ := emit (EvImport ccDataFilePath ccDataFormat) in
       let* rdCcObjD := lift (mU_doImport env ccDataFilePath ccDataFormat) in
       lift (limitReloaded rdCcObjD molLimit)
     else
       let* ccdFilePath := fetchUrl ccUrlTarget dirPath useCache in
       let* birdFilePath := fetchUrl birdUrlTarget dirPath useCache in
       let* rdCcObjD :=
         readComponentDefinitions ccdFilePath (Some birdFilePath) molLimit in
       let ccObjD := applyFilter rdCcObjD filterIdD in
       let* _ := emit (EvExport ccDataFilePath ccDataFormat ccObjD) in
       ret (Some ccObjD)) in
  let* _ := lift (len ccObjD) in
  ret ccObjD.

(** The keyword arguments of the constructor. *)
Record Kwargs : Type := {
  ccUrlTarget : string;
  birdUrlTarget : string;
  ccFileNamePrefix : string;
  cachePath : string;
  useCache : bool;
  molLimit : option Z;
  filterIdD : option (gset string);
}.

Definition defaults : Kwargs := {|
  ccUrlTarget := "http://ftp.wwpdb.org/pub/pdb/data/monomers/components.cif.gz";
  birdUrlTarget := "http://ftp.wwpdb.org/pub/pdb/data/bird/prd/prdcc-all.cif.gz";
  ccFileNamePrefix := "cc";
  cachePath := ".";
  useCache := true;
  molLimit := Some 0;
  filterIdD := None;
|}.

(** [__init__]: the value of [self.__ccMolD]. *)
Definition init (kw : Kwargs) : M (option Store) :=
  let dirPath := join (cachePath kw) "chem_comp" in
  reload (ccFileNamePrefix kw) (ccUrlTarget kw) (birdUrlTarget kw) dirPath
         (useCache kw) (molLimit kw) (filterIdD kw).

End Build.

(** The artifact and source paths a construction works with. *)
Definition dirPathOf (kw : Kwargs) : string := join (cachePath kw) "chem_comp".
Definition artifactPath (kw : Kwargs) : string :=
  ccDataFilePathOf (dirPathOf kw) (ccFileNamePrefix kw).
Definition ccdPath (env : Env) (kw : Kwargs) : string :=
  join (dirPathOf kw) (fU_getFileName env (ccUrlTarget kw)).
Definition birdPath (env : Env) (kw : Kwargs) : string :=
  join (dirPathOf kw) (fU_getFileName env (birdUrlTarget kw)).

(** The two transitions of a construction. *)
Definition cacheHit (env : Env) (kw : Kwargs) : bool :=
  useCache kw && mU_exists env (artifactPath kw).
Definition cacheMiss (env : Env) (kw : Kwargs) : bool := negb (cacheHit env kw).

(** Both source files are read without an exception. *)
Definition parsed (env : Env) (kw : Kwargs) (lp lb : list DataContainer) : Prop :=
  mU_doImport_mmcif env (ccdPath env kw) = Ok lp ∧
  mU_doImport_mmcif env (birdPath env kw) = Ok lb.

(** The same keyword arguments with another filter. *)
Definition withFilter (kw : Kwargs) (f : option (gset string)) : Kwargs :=
  {| ccUrlTarget := ccUrlTarget kw; birdUrlTarget := birdUrlTarget kw;
     ccFileNamePrefix := ccFileNamePrefix kw; cachePath := cachePath kw;
     useCache := useCache kw; molLimit := molLimit kw; filterIdD := f |}.

(** What the reader returns for the two source files of a construction
    (see [readComponentDefinitions_value]). *)
Definition readStore (env : Env) (ccdFilePath : string)
    (birdFilePath : option string) (molLimit : option Z) : Store :=
  match mU_doImport_mmcif env ccdFilePath with
  | Raise _ => ∅
  | Ok lp =>
      if str_truthy birdFilePath then
        match mU_doImport_mmcif env (default "" birdFilePath) with
        | Raise _ => ∅
        | Ok lb => keyLoop (limitRecords (lp ++ lb) molLimit) ∅
        end
      else keyLoop (limitRecords lp molLimit) ∅
  end.

(** The first [n] keys in ascending order. *)
Definition firstKeys (d : Store) (n : nat) : list string :=
  take n (sorted (keys d)).





(** ** Sample constructions *)

Module Sample.

Definition component (name : string) (ids : list string) : DataContainer :=
  {| getName := name; chemComp := (λ i, {| getId := i |}) <$> ids |}.

(** Primary records, in file order; the last one has no sub-entry. *)
Definition recC : DataContainer := component "C" ["C"].
Definition recA : DataContainer := component "A" ["A"; "A2"].
Definition recB : DataContainer := component "B" ["B"].
Definition recN : DataContainer := component "NONAME" [].
Definition primary : list DataContainer := [recC; recA; recB; recN].

(** Supplementary records; the first one shares its identifier with a
    primary record. *)
Definition prdA : DataContainer := component "PRD_A" ["A"].
Definition prdD : DataContainer := component "PRD_D" ["D"].
Definition bird : list DataContainer := [prdA; prdD].

Definition kw (lim : option Z) (ids : option (gset string)) : Kwargs :=
  {| ccUrlTarget := "http://host/components.cif";
     birdUrlTarget := "http://host/prdcc-all.cif";
     ccFileNamePrefix := "cc";
     cachePath := ".";
     useCache := true;
     molLimit := lim;
     filterIdD := ids |}.

Definition fileName (url : string) : string :=
  if bool_decide (url = "http://host/components.cif")
  then "components.cif" else "prdcc-all.cif".

(** No artifact yet; the two source files answer [ccd] and [prd]. *)
Definition fresh (ccd prd : Result (list DataContainer)) : Env :=
  {| mU_exists := λ _, false;
     mU_doImport_mmcif := λ p,
       if bool_decide (p = "./chem_comp/components.cif") then ccd else prd;
     mU_doImport := λ _ _, Ok None;
     fU_getFileName := fileName;
     fU_exists := λ _, false |}.

(** An artifact holding [d] exists. *)
Definition cached (d : Store) : Env :=
  {| mU_exists := λ p, bool_decide (p = "./chem_comp/cc-data.pic");
     mU_doImport_mmcif := λ _, Raise IOError;
     mU_doImport := λ _ _, Ok (Some d);
     fU_getFileName := fileName;
     fU_exists := λ _, false |}.

Definition stored : Store := keyLoop primary ∅.

Definition envBoth : Env := fresh (Ok primary) (Ok bird).
Definition envBirdFails : Env := fresh (Ok primary) (Raise IOError).
Definition envCached : Env := cached stored.

Definition kwPlain : Kwargs := kw None None.
Definition kwZero : Kwargs := kw (Some 0) None.
Definition kwLimit2 : Kwargs := kw (Some 2) None.
Definition kwFilter : Kwargs := kw None (Some {["A"; "D"; "ZZZ"]}).
Definition kwEmptyFilter : Kwargs := kw None (Some ∅).

End Sample.

(** The same keyword arguments with another molecule limit. *)
Definition withLimit (kw : Kwargs) (lim : option Z) : Kwargs :=
  {| ccUrlTarget := ccUrlTarget kw; birdUrlTarget := birdUrlTarget kw;
     ccFileNamePrefix := ccFileNamePrefix kw; cachePath := cachePath kw;
     useCache := useCache kw; molLimit := lim; filterIdD := filterIdD kw |}.

(** The fetch a construction makes for one source: none when the cache is
    in use and a local copy exists. *)
Definition fetchEvents (env : Env) (kw : Kwargs) (urlTarget : string)
  : list Event :=
  let filePath := join (dirPathOf kw) (fU_getFileName env urlTarget) in
  if useCache kw && fU_exists env filePath then []
  else [EvGet urlTarget filePath].

(** The import events of the reader: the supplementary file is read only
    once the primary file has been. *)
Definition readEvents (env : Env) (kw : Kwargs) : list Event :=
  EvImportMmCif (ccdPath env kw) ::
  match mU_doImport_mmcif env (ccdPath env kw) with
  | Ok _ => [EvImportMmCif (birdPath env kw)]
  | Raise _ => []
  end.

(** The records a fresh build keys, when both source files are read. *)
Definition processed (kw : Kwargs) (lp lb : list DataContainer)
  : list DataContainer :=
  limitRecords (lp ++ lb) (molLimit kw).

(** ** Selecting molecules for depiction (testOeDepict.py) *)

Section Depict.

(** The molecule objects are opaque; [str.upper] is a parameter. *)
Context {Mol : Type} (upper : string → string).

(** The loop of [__getMolDepictList], with [dL] the list built so far. *)
Fixpoint depictLoop (oeMolD : gmap string Mol) (ccIdList : list string)
    (dL : list (string * Mol * string)) : list (string * Mol * string) :=
  match ccIdList with
  | [] => dL
  | ccId :: rest =>
      let ccId := upper ccId in
      match oeMolD !! ccId with
      | Some mol => depictLoop oeMolD rest (dL ++ [(ccId, mol, "Title: " +:+ ccId)])
      | None => depictLoop oeMolD rest dL
      end
  end.

Definition getMolDepictList (oeMolD : gmap string Mol)
    (ccIdList : list string) : list (string * Mol * string) :=
  depictLoop oeMolD ccIdList [].

End Depict.

(** ** More sample constructions *)

Module Sample2.

(** An artifact exists and its import answers [r]. *)
Definition cachedResult (r : Result (option Store)) : Env :=
  {| mU_exists := λ p, bool_decide (p = "./chem_comp/cc-data.pic");
     mU_doImport_mmcif := λ _, Raise IOError;
     mU_doImport := λ _ _, r;
     fU_getFileName := Sample.fileName;
     fU_exists := λ _, false |}.

(** No artifact, but local copies of both source files. *)
Definition local : Env :=
  {| mU_exists := λ _, false;
     mU_doImport_mmcif := λ p,
       if bool_decide (p = "./chem_comp/components.cif")
       then Ok Sample.primary else Ok Sample.bird;
     mU_doImport := λ _ _, Ok None;
     fU_getFileName := Sample.fileName;
     fU_exists := λ _, true |}.

(** Records with pairwise distinct identifiers. *)
Definition distinct : list DataContainer :=
  [Sample.recC; Sample.recA; Sample.recB].
Definition envDistinct : Env := Sample.fresh (Ok distinct) (Ok [Sample.prdD]).

Definition kwNoCache : Kwargs :=
  {| ccUrlTarget := "http://host/components.cif";
     birdUrlTarget := "http://host/prdcc-all.cif";
     ccFileNamePrefix := "cc";
     cachePath := ".";
     useCache := false;
     molLimit := None;
     filterIdD := None |}.

Definition mols : gmap string nat := {[ "GLC" := 24%nat; "MAN" := 24%nat ]}.


End Sample2.

(** ** Reasoning about computations *)

Section EffLemmas.

Context {A B : Type}.

Lemma value_bind_ok (m : M A) (f : A → M B) a :
  value m = Ok a → value (bind m f) = value (f a).
Proof.
  destruct m as [t r]; simpl; intros ->.
  unfold bind; destruct (f a); reflexivity.
Qed.

Lemma value_bind_raise (m : M A) (f : A → M B) e :
  value m = Raise e → value (bind m f) = Raise e.
Proof. destruct m as [t r]; simpl; intros ->; reflexivity. Qed.

Lemma trace_bind_ok (m : M A) (f : A → M B) a :
  value m = Ok a → trace (bind m f) = trace m ++ trace (f a).
Proof.
  destruct m as [t r]; simpl; intros ->.
  unfold bind; destruct (f a); reflexivity.
Qed.



End EffLemmas.


(** ** Paths *)

Lemma app_nonempty_l (a b : string) : a ≠ "" → a +:+ b ≠ "".
Proof. destruct a; [congruence|]. intros _. unfold String.app. intros [=]. Qed.

Lemma join_nonempty_l (a b : string) : a ≠ "" → join a b ≠ "".
Proof.
  intros Ha. unfold join.
  destruct b as [|c b]; simpl.
  - destruct (bool_decide (a = "") || endswith "/" a);
      apply app_nonempty_l; exact Ha.
  - destruct (bool_decide (c = "/"%char)); [intros [=]|].
    destruct (bool_decide (a = "") || endswith "/" a);
      apply app_nonempty_l; exact Ha.
Qed.

Lemma join_nonempty_r (a b : string) : b ≠ "" → join a b ≠ "".
Proof.
  intros Hb. unfold join.
  destruct (startswith "/" b); [exact Hb|].
  destruct a as [|c a]; [exact Hb|].
  destruct (_ || _); unfold String.app; intros [=].
Qed.

Lemma dirPathOf_nonempty kw : dirPathOf kw ≠ "".
Proof. apply join_nonempty_r. intros [=]. Qed.

Lemma str_truthy_Some (s : string) : s ≠ "" → str_truthy (Some s) = true.
Proof. destruct s; [congruence|reflexivity]. Qed.

Lemma birdPath_truthy env kw : str_truthy (Some (birdPath env kw)) = true.
Proof. apply str_truthy_Some, join_nonempty_l, dirPathOf_nonempty. Qed.

(** ** The value of each step *)

Lemma fetchUrl_value env url dir uc :
  value (fetchUrl env url dir uc) = Ok (join dir (fU_getFileName env url)).
Proof. unfold fetchUrl. destruct (negb _); reflexivity. Qed.

Lemma readComponentDefinitions_value env ccd bird lim :
  value (readComponentDefinitions env ccd bird lim)
  = Ok (readStore env ccd bird lim).
Proof.
  unfold readComponentDefinitions, readRecords, importMmCif, readStore.
  destruct (mU_doImport_mmcif env ccd) as [lp|e]; [|reflexivity].
  destruct (str_truthy bird); [|reflexivity].
  destruct (mU_doImport_mmcif env (default "" bird)) as [lb|e]; reflexivity.
Qed.

Lemma init_miss_value env kw :
  cacheMiss env kw = true →
  value (init env kw)
  = Ok (Some (applyFilter
                (readStore env (ccdPath env kw) (Some (birdPath env kw))
                           (molLimit kw))
                (filterIdD kw))).
Proof.
  unfold cacheMiss, cacheHit, artifactPath. intros Hm%negb_true_iff.
  unfold init, reload. fold (dirPathOf kw). rewrite Hm.
  erewrite value_bind_ok; cycle 1.
  { erewrite value_bind_ok; [|apply fetchUrl_value].
    erewrite value_bind_ok; [|apply fetchUrl_value].
    erewrite value_bind_ok; [|apply readComponentDefinitions_value].
    reflexivity. }
  reflexivity.
Qed.

Lemma init_hit_value env kw :
  cacheHit env kw = true →
  value (init env kw)
  = match mU_doImport env (artifactPath kw) (ccDataFormatOf (artifactPath kw)) with
    | Ok rd =>
        match limitReloaded rd (molLimit kw) with
        | Ok ccObjD =>
            match len ccObjD with
            | Ok _ => Ok ccObjD
            | Raise e => Raise e
            end
        | Raise e => Raise e
        end
    | Raise e => Raise e
    end.
Proof.
  unfold cacheHit, artifactPath. intros Hh.
  unfold init, reload. fold (dirPathOf kw). rewrite Hh.
  destruct (mU_doImport env _ _) as [rd|e]; [|reflexivity].
  unfold bind, emit, lift, value; simpl.
  destruct (limitReloaded rd (molLimit kw)) as [d|e]; [|reflexivity].
  destruct (len d); reflexivity.
Qed.

(** ** The keying loop *)

Lemma keyLoop_app l1 l2 d : keyLoop (l1 ++ l2) d = keyLoop l2 (keyLoop l1 d).
Proof. revert d. induction l1 as [|c l1 IH]; intros d; simpl; auto. Qed.

Lemma keyLoop_lookup_notin l d k :
  (∀ c, c ∈ l → ccIdOf c ≠ k) → keyLoop l d !! k = d !! k.
Proof.
  revert d. induction l as [|c l IH]; intros d Hl; simpl; [done|].
  rewrite IH by (intros c' Hc'; apply Hl; by right).
  apply lookup_insert_ne, Hl. by left.
Qed.

Lemma keyLoop_lookup_last l1 c l2 d :
  (∀ c', c' ∈ l2 → ccIdOf c' ≠ ccIdOf c) →
  keyLoop (l1 ++ c :: l2) d !! ccIdOf c = Some c.
Proof.
  intros Hl2. rewrite keyLoop_app. simpl.
  rewrite keyLoop_lookup_notin by exact Hl2. apply lookup_insert_eq.
Qed.

Lemma keyLoop_lookup_inv l d k c :
  keyLoop l d !! k = Some c → (c ∈ l ∧ ccIdOf c = k) ∨ d !! k = Some c.
Proof.
  revert d. induction l as [|c0 l IH]; intros d; simpl; [by right|].
  intros [[Hin Hk]|Hd]%IH.
  - left. split; [by right|done].
  - destruct (decide (ccIdOf c0 = k)) as [<-|Hne].
    + rewrite lookup_insert_eq in Hd. injection Hd as ->. left. split; [by left|done].
    + rewrite lookup_insert_ne in Hd by done. by right.
Qed.

Lemma keyLoop_elem l d c :
  c ∈ l → ∃ c', c' ∈ l ∧ ccIdOf c' = ccIdOf c ∧ keyLoop l d !! ccIdOf c = Some c'.
Proof.
  revert d. induction l as [|c0 l IH] using rev_ind; intros d Hc.
  - by apply elem_of_nil in Hc.
  - rewrite keyLoop_app. simpl.
    destruct (decide (ccIdOf c0 = ccIdOf c)) as [Heq|Hne].
    + exists c0. rewrite Heq, lookup_insert_eq. split_and!; [|done..].
      apply elem_of_app. right. by left.
    + rewrite lookup_insert_ne by done.
      apply elem_of_app in Hc as [Hc|Hc%list_elem_of_singleton]; [|congruence].
      destruct (IH d Hc) as (c' & Hin & Hid & Hl).
      exists c'. split_and!; [|done..]. apply elem_of_app. by left.
Qed.

Lemma keyLoop_size l d : (size (keyLoop l d) ≤ size d + length l)%nat.
Proof.
  revert d. induction l as [|c l IH]; intros d; simpl; [lia|].
  etrans; [apply IH|]. pose proof (map_size_insert (ccIdOf c) c d) as Hs.
  destruct (d !! ccIdOf c); simpl in *; lia.
Qed.

(** ** Slices, sorted keys and the selection of a reload *)

Lemma slice_to_pos {A} (l : list A) (n : Z) :
  0 < n → slice_to l n = take (Z.to_nat n) l.
Proof. intros Hn. unfold slice_to. destruct (n <? 0) eqn:E; [lia|done]. Qed.

Lemma sorted_Sorted l : StronglySorted String.le (sorted l).
Proof. apply StronglySorted_merge_sort; apply _. Qed.

Lemma sorted_Permutation l : sorted l ≡ₚ l.
Proof. apply merge_sort_Permutation. Qed.

Lemma elem_of_keys (d : Store) k : k ∈ keys d ↔ is_Some (d !! k).
Proof.
  unfold keys. rewrite list_elem_of_fmap. split.
  - intros ([k' c] & -> & Hin). apply elem_of_map_to_list in Hin. by exists c.
  - intros [c Hc]. exists (k, c). split; [done|]. by apply elem_of_map_to_list.
Qed.

Lemma NoDup_keys (d : Store) : NoDup (keys d).
Proof. apply NoDup_fst_map_to_list. Qed.

Lemma length_keys (d : Store) : length (keys d) = size d.
Proof. unfold keys. by rewrite length_fmap, length_map_to_list. Qed.

Lemma selectKeys_ok (d : Store) ks acc :
  (∀ k, k ∈ ks → is_Some (d !! k)) →
  ∃ d', selectKeys d ks acc = Ok d' ∧
        ∀ k, d' !! k = if decide (k ∈ ks) then d !! k else acc !! k.
Proof.
  revert acc. induction ks as [|k0 ks IH]; intros acc Hks; simpl.
  - exists acc. split; [done|]. intros k.
    destruct (decide (k ∈ [])) as [Hk|_]; [|done].
    by apply elem_of_nil in Hk.
  - destruct (Hks k0) as [c Hc]; [by left|]. rewrite Hc.
    destruct (IH (<[k0:=c]> acc)) as (d' & Heq & Hd').
    { intros k Hk. apply Hks. by right. }
    rewrite Heq. exists d'. split; [done|]. intros k. rewrite Hd'.
    destruct (decide (k ∈ ks)) as [Hin|Hnin].
    + rewrite decide_True by (by right). done.
    + destruct (decide (k = k0)) as [->|Hne].
      * rewrite decide_True by (by left). by rewrite lookup_insert_eq.
      * rewrite decide_False by (intros [?|?]%elem_of_cons; done).
        by rewrite lookup_insert_ne.
Qed.

Lemma elem_of_firstKeys_dom (d : Store) n k :
  k ∈ firstKeys d n → is_Some (d !! k).
Proof.
  intros Hk%(subseteq_take n). apply elem_of_keys.
  by rewrite <-(sorted_Permutation (keys d)).
Qed.

Lemma NoDup_firstKeys (d : Store) n : NoDup (firstKeys d n).
Proof.
  apply (sublist_NoDup _ (sorted (keys d))); [|apply sublist_take].
  rewrite (sorted_Permutation (keys d)). apply NoDup_keys.
Qed.

Lemma length_firstKeys (d : Store) n :
  length (firstKeys d n) = (n `min` size d)%nat.
Proof.
  unfold firstKeys. rewrite length_take.
  by rewrite (Permutation_length (sorted_Permutation (keys d))), length_keys.
Qed.

Lemma firstKeys_least (d : Store) n k k' :
  k ∈ firstKeys d n → is_Some (d !! k') → k' ∉ firstKeys d n → String.le k k'.
Proof.
  intros Hk Hk' Hnk'. unfold firstKeys in *.
  pose proof (sorted_Sorted (keys d)) as Hs.
  rewrite <-(take_drop n (sorted (keys d))) in Hs.
  apply StronglySorted_app in Hs as (Hle & _ & _). apply Hle; [done|].
  apply elem_of_keys in Hk'. rewrite <-(sorted_Permutation (keys d)) in Hk'.
  rewrite <-(take_drop n (sorted (keys d))) in Hk'.
  apply elem_of_app in Hk' as [?|?]; done.
Qed.

Lemma limitReloaded_pos (d : Store) (N : Z) :
  0 < N →
  ∃ d', limitReloaded (Some d) (Some N) = Ok (Some d') ∧
        ∀ k, d' !! k = if decide (k ∈ firstKeys d (Z.to_nat N)) then d !! k else None.
Proof.
  intros HN. unfold limitReloaded, int_truthy.
  destruct (N =? 0) eqn:E; [lia|]. simpl.
  rewrite slice_to_pos by done.
  destruct (selectKeys_ok d (firstKeys d (Z.to_nat N)) ∅) as (d' & Hd' & Hl).
  { intros k. apply elem_of_firstKeys_dom. }
  unfold firstKeys in *. rewrite Hd'. exists d'. split; [done|].
  intros k. rewrite Hl. case_decide; [done|]. apply lookup_empty.
Qed.

(** ** Validation and lookup *)

(** C2 (as amended).  [testCache] returns a true value exactly when the
    store is present and, for a non-zero [minCount], is non-empty and holds
    at least [minCount] entries; with [minCount] zero (or [None]) only the
    presence of the store counts; with no argument [minCount] is 29000. *)
Theorem testCache_truthy (ccMolD : option Store) (minCount : option Z) :
  (truthy (testCache ccMolD minCount) = true ↔
     ∃ d, ccMolD = Some d ∧
          (int_truthy minCount = true →
           d ≠ ∅ ∧ default 0 minCount ≤ Z.of_nat (size d))) ∧
  (truthy (testCache_default ccMolD) = true ↔
     ∃ d, ccMolD = Some d ∧ 29000 ≤ Z.of_nat (size d)).
Proof.
  assert (∀ mc, truthy (testCache ccMolD mc) = true ↔
     ∃ d, ccMolD = Some d ∧
          (int_truthy mc = true → d ≠ ∅ ∧ default 0 mc ≤ Z.of_nat (size d)))
    as Hgen.
  { intros mc. unfold testCache.
    destruct (int_truthy mc) eqn:Hmc.
    - destruct ccMolD as [d|]; simpl.
      + destruct (bool_decide (d = ∅)) eqn:Hd; simpl.
        * apply bool_decide_eq_true in Hd. rewrite Hd. simpl. split; [done|].
          intros (d' & [= <-] & H). by destruct H.
        * apply bool_decide_eq_false in Hd. rewrite bool_decide_eq_true.
          split; [intros; exists d; auto|].
          intros (d' & [= <-] & H). by destruct H.
      + split; [done|]. by intros (d & ? & _).
    - simpl. rewrite bool_decide_eq_true. split.
      + destruct ccMolD as [d|]; [|done]. intros _. exists d. split; [done|]. done.
      + intros (d & -> & _). done. }
  split; [apply Hgen|].
  unfold testCache_default. rewrite Hgen. simpl.
  split; intros (d & -> & H); exists d; (split; [done|]).
  - by apply H.
  - intros _. split; [|done]. intros ->. rewrite map_size_empty in H. lia.
Qed.

(** C2, the claim as written fails: called with no argument on a present,
    empty store, [testCache] does not return a true value. *)
Lemma testCache_default_empty_store :
  ¬ (truthy (testCache_default (Some ∅)) = true ↔ Some (∅ : Store) ≠ None).
Proof.
  intros [_ H]. assert (truthy (testCache_default (Some ∅)) = true) as Ht
    by (apply H; done).
  vm_compute in Ht. discriminate Ht.
Qed.

(** C9.  [getMol] returns the record stored under the identifier, or
    [None] when the identifier (or the store) is absent; it never raises. *)
Theorem getMol_total (ccMolD : option Store) (ccId : string) :
  getMol ccMolD ccId = Ok (d ← ccMolD; d !! ccId).
Proof.
  unfold getMol, subscript. destruct ccMolD as [d|]; simpl; [|done].
  by destruct (d !! ccId).
Qed.

(** ** The extension of a path and the format it selects *)

Lemma rfind_from_cases c s i acc :
  acc < i →
  rfind_from c s i acc = acc ∨
  (i ≤ rfind_from c s i acc ∧
   startswith c (str_drop (Z.to_nat (rfind_from c s i acc - i)) s) = true).
Proof.
  revert i acc. induction s as [|a s IH]; intros i acc Hlt; simpl; [by left|].
  destruct (decide (a = c)) as [->|Hne].
  - destruct (IH (i + 1) i) as [->|[Hle Hs]]; [lia| |].
    + right. split; [lia|]. rewrite Z.sub_diag. simpl. by apply bool_decide_eq_true.
    + right. split; [lia|].
      replace (Z.to_nat (rfind_from c s (i + 1) i - i))
        with (S (Z.to_nat (rfind_from c s (i + 1) i - (i + 1)))) by lia.
      exact Hs.
  - destruct (IH (i + 1) acc) as [->|[Hle Hs]]; [lia| |].
    + by left.
    + right. split; [lia|].
      replace (Z.to_nat (rfind_from c s (i + 1) acc - i))
        with (S (Z.to_nat (rfind_from c s (i + 1) acc - (i + 1)))) by lia.
      exact Hs.
Qed.

Lemma splitext_ext_cases p :
  (splitext p).2 = "" ∨ startswith "." (splitext p).2 = true.
Proof.
  unfold splitext. destruct (_ && _) eqn:Hc; [|by left].
  apply andb_true_iff in Hc as [Hlt%Z.ltb_lt _]. right. simpl.
  unfold rfind in *.
  destruct (rfind_from_cases "/" p 0 (-1)) as [Hs|[Hs _]]; [lia| |];
    (destruct (rfind_from_cases "." p 0 (-1)) as [Hd|[_ Hd]]; [lia|lia|]);
    by rewrite Z.sub_0_r in Hd.
Qed.

(** No extension that [splitext] yields equals ["json"]. *)
Lemma ccDataFormatOf_pickle p : ccDataFormatOf p = Pickle.
Proof.
  unfold ccDataFormatOf, formatOfExt.
  destruct (splitext_ext_cases p) as [->|He]; [done|].
  rewrite bool_decide_eq_false_2; [done|]. intros Heq. by rewrite Heq in He.
Qed.

Lemma app_cons a (X Y : string) : String a X +:+ Y = String a (X +:+ Y).
Proof. reflexivity. Qed.

Lemma app_assoc_str (X Y W : string) : (X +:+ Y) +:+ W = X +:+ (Y +:+ W).
Proof. induction X as [|a X IH]; [done|]. by rewrite !app_cons, IH. Qed.













(** ** The events of a construction *)











(** ** Fresh builds *)

Lemma readStore_parsed env kw lp lb :
  parsed env kw lp lb →
  readStore env (ccdPath env kw) (Some (birdPath env kw)) (molLimit kw)
  = keyLoop (limitRecords (lp ++ lb) (molLimit kw)) ∅.
Proof.
  intros [Hp Hb]. unfold readStore.
  rewrite Hp, birdPath_truthy. simpl. by rewrite Hb.
Qed.

Lemma init_miss_parsed env kw lp lb :
  cacheMiss env kw = true → parsed env kw lp lb →
  value (init env kw)
  = Ok (Some (applyFilter (keyLoop (limitRecords (lp ++ lb) (molLimit kw)) ∅)
                          (filterIdD kw))).
Proof.
  intros Hm Hp. rewrite init_miss_value by done. by rewrite (readStore_parsed _ _ lp lb).
Qed.

Lemma applyFilter_empty f : applyFilter ∅ f = ∅.
Proof. unfold applyFilter. destruct (filter_truthy f); [apply map_filter_empty|done]. Qed.

Lemma applyFilter_subseteq (d : Store) f : applyFilter d f ⊆ d.
Proof.
  unfold applyFilter. destruct (filter_truthy f); [apply map_filter_subseteq|done].
Qed.

Lemma applyFilter_off (d : Store) f : filter_truthy f = false → applyFilter d f = d.
Proof. unfold applyFilter. by intros ->. Qed.

Lemma applyFilter_lookup_in (d : Store) f k :
  (filter_truthy f = true → k ∈ default ∅ f) → applyFilter d f !! k = d !! k.
Proof.
  unfold applyFilter. destruct (filter_truthy f); [|done]. intros Hk.
  destruct (d !! k) as [c|] eqn:Hd.
  - apply map_lookup_filter_Some. split; [done|]. by apply Hk.
  - apply map_lookup_filter_None. left. done.
Qed.

Lemma applyFilter_dom (d : Store) (ids : gset string) :
  ids ≠ ∅ → dom (applyFilter d (Some ids)) = ids ∩ dom d.
Proof.
  intros Hne. unfold applyFilter, filter_truthy.
  rewrite bool_decide_eq_false_2 by done. simpl.
  apply dom_filter_L. intros k. rewrite elem_of_intersection, elem_of_dom.
  split.
  - intros [Hk [c Hc]]. by exists c.
  - intros (c & Hc & Hk). split; [done|by exists c].
Qed.





(** C4 (as amended).  In a fresh build with a non-empty filter set, the
    keys of the store are the filter set intersected with the keys of the
    same build without a filter, and the records are those of that build;
    with an empty filter set, as with none, the store is the unfiltered
    one. *)
Theorem filter_law env kw :
  cacheMiss env kw = true →
  ∃ d0 d, value (init env (withFilter kw None)) = Ok (Some d0) ∧
          value (init env kw) = Ok (Some d) ∧
          match filterIdD kw with
          | Some ids =>
              if decide (ids = ∅) then d = d0
              else dom d = ids ∩ dom d0 ∧ d ⊆ d0
          | None => d = d0
          end.
Proof.
  intros Hm. do 2 eexists. split_and!.
  - by apply (init_miss_value env (withFilter kw None)).
  - by apply init_miss_value.
  - change (ccdPath env (withFilter kw None)) with (ccdPath env kw).
    change (birdPath env (withFilter kw None)) with (birdPath env kw).
    change (molLimit (withFilter kw None)) with (molLimit kw).
    change (filterIdD (withFilter kw None)) with (@None (gset string)).
    set (rd := readStore _ _ _ _).
    destruct (filterIdD kw) as [ids|]; [|done].
    destruct (decide (ids = ∅)) as [->|Hne].
    + unfold applyFilter, filter_truthy. by rewrite bool_decide_eq_true_2.
    + split; [by apply applyFilter_dom|apply applyFilter_subseteq].
Qed.

Lemma filter_law_witness :
  cacheMiss Sample.envBoth Sample.kwFilter = true ∧
  ∃ d0 d, value (init Sample.envBoth (withFilter Sample.kwFilter None)) = Ok (Some d0) ∧
          value (init Sample.envBoth Sample.kwFilter) = Ok (Some d) ∧
          match filterIdD Sample.kwFilter with
          | Some ids =>
              if decide (ids = ∅) then d = d0
              else dom d = ids ∩ dom d0 ∧ d ⊆ d0
          | None => d = d0
          end.
Proof.
  split; [reflexivity|].
  apply (filter_law Sample.envBoth Sample.kwFilter). reflexivity.
Defined.

(** C4, the claim as written fails for the empty filter set: the store
    keeps every key of the unfiltered build. *)
Lemma empty_filter_keeps_all :
  cacheMiss Sample.envBoth Sample.kwEmptyFilter = true ∧
  ∃ d0 d, value (init Sample.envBoth Sample.kwPlain) = Ok (Some d0) ∧
          value (init Sample.envBoth Sample.kwEmptyFilter) = Ok (Some d) ∧
          d !! "A" = Some Sample.prdA ∧
          dom d ≠ (∅ : gset string) ∩ dom d0.
Proof.
  split; [reflexivity|]. do 2 eexists. split_and!.
  - apply (init_miss_parsed _ _ Sample.primary Sample.bird); [reflexivity|by split].
  - apply (init_miss_parsed _ _ Sample.primary Sample.bird); [reflexivity|by split].
  - reflexivity.
  - intros Hdom.
    assert ("A" ∈ (∅ : gset string) ∩ dom (applyFilter
              (keyLoop (limitRecords (Sample.primary ++ Sample.bird)
                                     (molLimit Sample.kwPlain)) ∅)
              (filterIdD Sample.kwPlain))) as HA; [|set_solver].
    rewrite <-Hdom. apply elem_of_dom. by eexists.
Qed.

(** ** The molecule limit *)

Lemma limitRecords_pos l N :
  0 < N → limitRecords l (Some N) = take (Z.to_nat N) l.
Proof.
  intros HN. unfold limitRecords, int_truthy.
  destruct (N =? 0) eqn:E; [lia|]. simpl. by apply slice_to_pos.
Qed.

Lemma limitRecords_off l lim : int_truthy lim = false → limitRecords l lim = l.
Proof. unfold limitRecords. by intros ->. Qed.

(** C5.  On a cache hit with molecule limit [N], the store holds the first
    [N] keys of the deserialized dictionary in ascending order, with their
    records: at most [N] entries, each no greater than any key left out. *)
Theorem reload_limit_sorted env kw (d : Store) (N : Z) :
  cacheHit env kw = true →
  mU_doImport env (artifactPath kw) (ccDataFormatOf (artifactPath kw))
  = Ok (Some d) →
  molLimit kw = Some N →
  0 < N →
  ∃ d', value (init env kw) = Ok (Some d') ∧
        Z.of_nat (size d') ≤ N ∧
        size d' = (Z.to_nat N `min` size d)%nat ∧
        dom d' = list_to_set (take (Z.to_nat N) (sorted (keys d))) ∧
        d' ⊆ d ∧
        StronglySorted String.le (sorted (keys d)) ∧
        sorted (keys d) ≡ₚ keys d ∧
        (∀ k k', k ∈ dom d' → k' ∈ dom d → k' ∉ dom d' → String.le k k').
Proof.
  intros Hh Himp Hlim HN.
  destruct (limitReloaded_pos d N HN) as (d' & Hd' & Hl).
  assert (dom d' = list_to_set (firstKeys d (Z.to_nat N))) as Hdom.
  { apply set_eq. intros k. rewrite elem_of_dom, elem_of_list_to_set, Hl.
    destruct (decide (k ∈ firstKeys d (Z.to_nat N))) as [Hk|Hk].
    - split; [done|]. intros _. by eapply elem_of_firstKeys_dom.
    - split; [by intros [? ?]|done]. }
  assert (size d' = (Z.to_nat N `min` size d)%nat) as Hsize.
  { rewrite <-(size_dom (D:=gset string)), Hdom, size_list_to_set
      by apply NoDup_firstKeys.
    apply length_firstKeys. }
  exists d'. split_and!.
  - rewrite init_hit_value by done. by rewrite Himp, Hlim, Hd'.
  - lia.
  - exact Hsize.
  - exact Hdom.
  - apply map_subseteq_spec. intros k c. rewrite Hl. by case_decide.
  - apply sorted_Sorted.
  - apply sorted_Permutation.
  - intros k k'. rewrite Hdom, !elem_of_list_to_set, elem_of_dom.
    apply firstKeys_least.
Qed.

Lemma reload_limit_sorted_witness :
  cacheHit Sample.envCached Sample.kwLimit2 = true ∧
  mU_doImport Sample.envCached (artifactPath Sample.kwLimit2)
    (ccDataFormatOf (artifactPath Sample.kwLimit2)) = Ok (Some Sample.stored) ∧
  molLimit Sample.kwLimit2 = Some 2 ∧
  0 < 2 ∧
  ∃ d', value (init Sample.envCached Sample.kwLimit2) = Ok (Some d') ∧
        Z.of_nat (size d') ≤ 2 ∧
        size d' = (Z.to_nat 2 `min` size Sample.stored)%nat ∧
        dom d' = list_to_set (take (Z.to_nat 2) (sorted (keys Sample.stored))) ∧
        d' ⊆ Sample.stored ∧
        StronglySorted String.le (sorted (keys Sample.stored)) ∧
        sorted (keys Sample.stored) ≡ₚ keys Sample.stored ∧
        (∀ k k', k ∈ dom d' → k' ∈ dom Sample.stored → k' ∉ dom d' →
                 String.le k k').
Proof.
  split_and!; [reflexivity|reflexivity|reflexivity|lia|].
  apply (reload_limit_sorted Sample.envCached Sample.kwLimit2 Sample.stored 2);
    [reflexivity|reflexivity|reflexivity|lia].
Defined.

(** C6.  In a fresh build with molecule limit [N], the store is keyed from
    the first [N] records of the primary records followed by the
    supplementary ones: at most [N] entries, all from that head. *)
Theorem fresh_limit_head env kw lp lb (N : Z) :
  cacheMiss env kw = true →
  parsed env kw lp lb →
  molLimit kw = Some N →
  0 < N →
  ∃ d, value (init env kw) = Ok (Some d) ∧
       d = applyFilter (keyLoop (take (Z.to_nat N) (lp ++ lb)) ∅) (filterIdD kw) ∧
       Z.of_nat (size d) ≤ N ∧
       (∀ k c, d !! k = Some c →
               c ∈ take (Z.to_nat N) (lp ++ lb) ∧ ccIdOf c = k).
Proof.
  intros Hm Hp Hlim HN. eexists. split; [by apply init_miss_parsed|].
  rewrite Hlim, limitRecords_pos by done.
  set (l := take (Z.to_nat N) (lp ++ lb)).
  pose proof (applyFilter_subseteq (keyLoop l ∅) (filterIdD kw)) as Hsub.
  split_and!.
  - reflexivity.
  - apply map_subseteq_size in Hsub.
    pose proof (keyLoop_size l ∅) as Hs. rewrite map_size_empty in Hs.
    assert (length l ≤ Z.to_nat N)%nat by (subst l; rewrite length_take; lia).
    lia.
  - intros k c Hc. eapply lookup_weaken in Hc; [|exact Hsub].
    apply keyLoop_lookup_inv in Hc as [?|Hc]; [done|].
    by rewrite lookup_empty in Hc.
Qed.

Lemma fresh_limit_head_witness :
  cacheMiss Sample.envBoth Sample.kwLimit2 = true ∧
  parsed Sample.envBoth Sample.kwLimit2 Sample.primary Sample.bird ∧
  molLimit Sample.kwLimit2 = Some 2 ∧
  0 < 2 ∧
  ∃ d, value (init Sample.envBoth Sample.kwLimit2) = Ok (Some d) ∧
       d = applyFilter
             (keyLoop (take (Z.to_nat 2) (Sample.primary ++ Sample.bird)) ∅)
             (filterIdD Sample.kwLimit2) ∧
       Z.of_nat (size d) ≤ 2 ∧
       (∀ k c, d !! k = Some c →
               c ∈ take (Z.to_nat 2) (Sample.primary ++ Sample.bird) ∧
               ccIdOf c = k).
Proof.
  split_and!; [reflexivity|split; reflexivity|reflexivity|lia|].
  apply (fresh_limit_head Sample.envBoth Sample.kwLimit2 Sample.primary Sample.bird 2);
    [reflexivity|split; reflexivity|reflexivity|lia].
Defined.

(** ** Keys of a fresh build *)

Lemma singleton_of_filter {A} (P : A → Prop) `{!∀ x, Decision (P x)}
    (l : list A) (x : A) :
  NoDup l → x ∈ l → P x → (∀ y, y ∈ l → P y → y = x) → filter P l = [x].
Proof.
  intros Hnd Hx HP Huniq.
  apply Permutation_singleton_r, NoDup_Permutation.
  - by apply NoDup_filter.
  - apply NoDup_singleton.
  - intros y. rewrite list_elem_of_filter, list_elem_of_singleton. split.
    + intros [HPy Hy]. by apply Huniq.
    + intros ->. done.
Qed.

(** C7.  In a fresh build the supplementary records follow the primary
    ones; when a primary and a supplementary record have the same
    identifier, the store has exactly one entry under it, and that entry
    is the supplementary record. *)
Theorem last_write_wins env kw lp lb (p b : DataContainer) :
  cacheMiss env kw = true →
  parsed env kw lp lb →
  int_truthy (molLimit kw) = false →
  (filter_truthy (filterIdD kw) = true → ccIdOf b ∈ default ∅ (filterIdD kw)) →
  p ∈ lp →
  b ∈ lb →
  ccIdOf p = ccIdOf b →
  (∀ b', b' ∈ lb → ccIdOf b' = ccIdOf b → b' = b) →
  ∃ d, value (init env kw) = Ok (Some d) ∧
       d = applyFilter (keyLoop (lp ++ lb) ∅) (filterIdD kw) ∧
       d !! ccIdOf p = Some b ∧
       filter (λ kv, kv.1 = ccIdOf p) (map_to_list d) = [(ccIdOf p, b)].
Proof.
  intros Hm Hp Hlim Hf Hpin Hbin Hid Huniq.
  eexists. split; [by apply init_miss_parsed|].
  rewrite limitRecords_off by done.
  set (d := applyFilter (keyLoop (lp ++ lb) ∅) (filterIdD kw)).
  assert (d !! ccIdOf p = Some b) as Hd.
  { subst d. rewrite Hid, applyFilter_lookup_in by done. rewrite keyLoop_app.
    destruct (keyLoop_elem lb (keyLoop lp ∅) b Hbin) as (b' & Hin & Hid' & ->).
    f_equal. by apply Huniq. }
  split_and!; [done..|].
  apply singleton_of_filter.
  - apply NoDup_map_to_list.
  - by apply elem_of_map_to_list.
  - done.
  - intros [k c] Hkc%elem_of_map_to_list Hk. simpl in Hk. subst k. congruence.
Qed.

Lemma last_write_wins_witness :
  cacheMiss Sample.envBoth Sample.kwPlain = true ∧
  parsed Sample.envBoth Sample.kwPlain Sample.primary Sample.bird ∧
  int_truthy (molLimit Sample.kwPlain) = false ∧
  Sample.recA ∈ Sample.primary ∧
  Sample.prdA ∈ Sample.bird ∧
  ccIdOf Sample.recA = ccIdOf Sample.prdA ∧
  ∃ d, value (init Sample.envBoth Sample.kwPlain) = Ok (Some d) ∧
       d = applyFilter (keyLoop (Sample.primary ++ Sample.bird) ∅)
                       (filterIdD Sample.kwPlain) ∧
       d !! ccIdOf Sample.recA = Some Sample.prdA ∧
       filter (λ kv, kv.1 = ccIdOf Sample.recA) (map_to_list d)
       = [(ccIdOf Sample.recA, Sample.prdA)].
Proof.
  assert (Sample.recA ∈ Sample.primary) as HA by (right; left).
  assert (Sample.prdA ∈ Sample.bird) as HP by left.
  split_and!; [reflexivity|split; reflexivity|reflexivity|exact HA|exact HP
              |reflexivity|].
  apply (last_write_wins Sample.envBoth Sample.kwPlain Sample.primary Sample.bird
                         Sample.recA Sample.prdA);
    [reflexivity|split; reflexivity|reflexivity|discriminate|exact HA|exact HP
    |reflexivity|].
  intros b' Hb' Hid.
  apply elem_of_cons in Hb' as [->|Hb']; [reflexivity|].
  apply list_elem_of_singleton in Hb' as ->. discriminate Hid.
Defined.

(** C8.  The key of a processed record is the identity field of its first
    sub-entry when it has one, and its container name otherwise; either
    way the record is keyed, not dropped. *)
Theorem identifier_two_tier env kw lp lb (ccObj : DataContainer) :
  cacheMiss env kw = true →
  parsed env kw lp lb →
  filter_truthy (filterIdD kw) = false →
  ccObj ∈ limitRecords (lp ++ lb) (molLimit kw) →
  ccIdOf ccObj = match chemComp ccObj with
                 | ccIt :: _ => getId ccIt
                 | [] => getName ccObj
                 end ∧
  ∃ d ccObj', value (init env kw) = Ok (Some d) ∧
              d !! ccIdOf ccObj = Some ccObj' ∧
              ccIdOf ccObj' = ccIdOf ccObj ∧
              (chemComp ccObj = [] → d !! getName ccObj = Some ccObj').
Proof.
  intros Hm Hp Hf Hin. split.
  { unfold ccIdOf, firstChemComp. by destruct (chemComp ccObj). }
  destruct (keyLoop_elem _ ∅ _ Hin) as (c' & _ & Hid & Hl).
  exists (keyLoop (limitRecords (lp ++ lb) (molLimit kw)) ∅), c'. split_and!.
  - rewrite (init_miss_parsed env kw lp lb) by done. by rewrite applyFilter_off.
  - exact Hl.
  - exact Hid.
  - intros Hnil. rewrite <-Hl. f_equal.
    unfold ccIdOf, firstChemComp. by rewrite Hnil.
Qed.

Lemma identifier_two_tier_witness :
  cacheMiss Sample.envBoth Sample.kwPlain = true ∧
  parsed Sample.envBoth Sample.kwPlain Sample.primary Sample.bird ∧
  filter_truthy (filterIdD Sample.kwPlain) = false ∧
  Sample.recN ∈ limitRecords (Sample.primary ++ Sample.bird)
                             (molLimit Sample.kwPlain) ∧
  ccIdOf Sample.recN = "NONAME" ∧
  ∃ d ccObj', value (init Sample.envBoth Sample.kwPlain) = Ok (Some d) ∧
              d !! ccIdOf Sample.recN = Some ccObj' ∧
              ccIdOf ccObj' = ccIdOf Sample.recN ∧
              (chemComp Sample.recN = [] → d !! getName Sample.recN = Some ccObj').
Proof.
  assert (Sample.recN ∈ limitRecords (Sample.primary ++ Sample.bird)
                                     (molLimit Sample.kwPlain)) as HN
    by (do 3 right; left).
  split_and!; [reflexivity|split; reflexivity|reflexivity|exact HN|..];
    apply (identifier_two_tier Sample.envBoth Sample.kwPlain
                               Sample.primary Sample.bird Sample.recN);
    try reflexivity; try (split; reflexivity); exact HN.
Defined.

(** C10.  A molecule limit of zero, the default, limits nothing: a reload
    returns the whole deserialized dictionary and a fresh build keys every
    record of the primary and supplementary files. *)
Theorem zero_limit_is_no_limit env kw :
  molLimit defaults = Some 0 ∧
  (molLimit kw = Some 0 →
   (∀ d, cacheHit env kw = true →
         mU_doImport env (artifactPath kw) (ccDataFormatOf (artifactPath kw))
         = Ok (Some d) →
         value (init env kw) = Ok (Some d)) ∧
   (∀ lp lb, cacheMiss env kw = true → parsed env kw lp lb →
      value (init env kw)
      = Ok (Some (applyFilter (keyLoop (lp ++ lb) ∅) (filterIdD kw))) ∧
      ∀ ccObj, ccObj ∈ lp ++ lb →
               is_Some (keyLoop (lp ++ lb) ∅ !! ccIdOf ccObj))).
Proof.
  split; [reflexivity|]. intros Hlim. split.
  - intros d Hh Himp. rewrite init_hit_value by done. by rewrite Himp, Hlim.
  - intros lp lb Hm Hp. split.
    + rewrite (init_miss_parsed env kw lp lb) by done.
      by rewrite Hlim, limitRecords_off.
    + intros c Hc. destruct (keyLoop_elem _ ∅ _ Hc) as (c' & _ & _ & ->).
      by eexists.
Qed.

Lemma zero_limit_is_no_limit_witness :
  molLimit Sample.kwZero = Some 0 ∧
  value (init Sample.envCached Sample.kwZero) = Ok (Some Sample.stored) ∧
  value (init Sample.envBoth Sample.kwZero)
  = Ok (Some (applyFilter (keyLoop (Sample.primary ++ Sample.bird) ∅)
                          (filterIdD Sample.kwZero))).
Proof.
  destruct (zero_limit_is_no_limit Sample.envCached Sample.kwZero)
    as [_ Hhit].
  destruct (zero_limit_is_no_limit Sample.envBoth Sample.kwZero)
    as [_ Hmiss].
  split_and!.
  - reflexivity.
  - apply Hhit; reflexivity.
  - apply (Hmiss eq_refl); [reflexivity|split; reflexivity].
Defined.

(** The two limits select differently: from records read in the order
    C, A, B, a fresh build with limit 2 keeps C and A, a reload of the full
    dictionary with limit 2 keeps A and B. *)
Example limit_fresh_and_reload_differ :
  (∃ d, value (init Sample.envBoth Sample.kwLimit2) = Ok (Some d) ∧
        dom d = {["C"; "A"]}) ∧
  (∃ d, value (init Sample.envCached Sample.kwLimit2) = Ok (Some d) ∧
        dom d = {["A"; "B"]}).
Proof.
  split; eexists; (split; [vm_compute; reflexivity|]); vm_compute; reflexivity.
Qed.

(** ** The order of the calls of a construction *)

Lemma fetchUrl_trace env kw url :
  trace (fetchUrl env url (dirPathOf kw) (useCache kw)) = fetchEvents env kw url.
Proof.
  unfold fetchUrl, fetchEvents. by destruct (useCache kw && _).
Qed.

Lemma readComponentDefinitions_trace env kw :
  trace (readComponentDefinitions env (ccdPath env kw) (Some (birdPath env kw))
                                  (molLimit kw))
  = readEvents env kw.
Proof.
  unfold readComponentDefinitions, readRecords, importMmCif, readEvents.
  rewrite birdPath_truthy. simpl.
  destruct (mU_doImport_mmcif env (ccdPath env kw)) as [lp|e]; [|reflexivity].
  simpl. destruct (mU_doImport_mmcif env (birdPath env kw)); reflexivity.
Qed.

Lemma init_miss_trace env kw :
  cacheMiss env kw = true →
  trace (init env kw)
  = fetchEvents env kw (ccUrlTarget kw) ++ fetchEvents env kw (birdUrlTarget kw)
    ++ readEvents env kw
    ++ [EvExport (artifactPath kw) Pickle
          (applyFilter
             (readStore env (ccdPath env kw) (Some (birdPath env kw)) (molLimit kw))
             (filterIdD kw))].
Proof.
  intros Hm. unfold cacheMiss, cacheHit in Hm. apply negb_true_iff in Hm.
  unfold init, reload. fold (dirPathOf kw). fold (artifactPath kw).
  rewrite ccDataFormatOf_pickle, Hm.
  erewrite trace_bind_ok; cycle 1.
  { erewrite value_bind_ok; [|apply fetchUrl_value].
    erewrite value_bind_ok; [|apply fetchUrl_value].
    erewrite value_bind_ok; [|apply readComponentDefinitions_value].
    reflexivity. }
  simpl (trace (let* _ := lift (len (Some _)) in ret _)). rewrite app_nil_r.
  erewrite trace_bind_ok; [|apply fetchUrl_value]. rewrite fetchUrl_trace.
  erewrite trace_bind_ok; [|apply fetchUrl_value]. rewrite fetchUrl_trace.
  erewrite trace_bind_ok; [|apply readComponentDefinitions_value].
  fold (ccdPath env kw). fold (birdPath env kw).
  rewrite readComponentDefinitions_trace. reflexivity.
Qed.

Lemma init_hit_trace env kw :
  cacheHit env kw = true →
  trace (init env kw) = [EvImport (artifactPath kw) Pickle].
Proof.
  unfold cacheHit. intros Hh.
  unfold init, reload. fold (dirPathOf kw). fold (artifactPath kw).
  rewrite ccDataFormatOf_pickle, Hh.
  destruct (mU_doImport env _ _) as [rd|e]; [|reflexivity].
  unfold bind, emit, lift; simpl.
  destruct (limitReloaded rd (molLimit kw)) as [d|e]; [|reflexivity].
  destruct (len d); reflexivity.
Qed.

(** X1.  A fresh build makes its calls in a fixed order: the fetch of the
    primary source, the fetch of the supplementary source (each one left
    out only when the cache is in use and a local copy exists), the import
    of the primary file, the import of the supplementary file unless the
    first import raised, and last one export of the store it returns. *)
Theorem fresh_build_events env kw :
  cacheMiss env kw = true →
  ∃ d, value (init env kw) = Ok (Some d) ∧
       trace (init env kw)
       = fetchEvents env kw (ccUrlTarget kw)
         ++ fetchEvents env kw (birdUrlTarget kw)
         ++ readEvents env kw
         ++ [EvExport (artifactPath kw) Pickle d].
Proof.
  intros Hm. eexists. split; [by apply init_miss_value|by apply init_miss_trace].
Qed.

Lemma fresh_build_events_witness :
  cacheMiss Sample.envBirdFails Sample.kwPlain = true ∧
  ∃ d, value (init Sample.envBirdFails Sample.kwPlain) = Ok (Some d) ∧
       trace (init Sample.envBirdFails Sample.kwPlain)
       = fetchEvents Sample.envBirdFails Sample.kwPlain
           (ccUrlTarget Sample.kwPlain)
         ++ fetchEvents Sample.envBirdFails Sample.kwPlain
              (birdUrlTarget Sample.kwPlain)
         ++ readEvents Sample.envBirdFails Sample.kwPlain
         ++ [EvExport (artifactPath Sample.kwPlain) Pickle d].
Proof.
  split; [reflexivity|].
  apply (fresh_build_events Sample.envBirdFails Sample.kwPlain). reflexivity.
Defined.

(** X2.  A cache hit makes one call, the import of the artifact: nothing
    is fetched, no source file is read and nothing is exported, whether
    the import succeeds or not. *)
Theorem cache_hit_events env kw :
  cacheHit env kw = true →
  trace (init env kw) = [EvImport (artifactPath kw) Pickle].
Proof. apply init_hit_trace. Qed.

Lemma cache_hit_events_witness :
  cacheHit (Sample2.cachedResult (Raise IOError)) Sample.kwPlain = true ∧
  trace (init (Sample2.cachedResult (Raise IOError)) Sample.kwPlain)
  = [EvImport (artifactPath Sample.kwPlain) Pickle].
Proof.
  split; [reflexivity|].
  apply (cache_hit_events (Sample2.cachedResult (Raise IOError)) Sample.kwPlain).
  reflexivity.
Defined.

(** X3.  With [useCache] false a construction never reads the artifact
    and always fetches both sources, the primary one first, before any
    import, even when local copies and an artifact exist. *)
Theorem no_cache_fetches_both env kw :
  useCache kw = false →
  ∃ rest,
    trace (init env kw)
    = EvGet (ccUrlTarget kw) (ccdPath env kw)
      :: EvGet (birdUrlTarget kw) (birdPath env kw)
      :: EvImportMmCif (ccdPath env kw) :: rest ∧
    Forall (λ ev, match ev with
                  | EvGet _ _ | EvImport _ _ => False
                  | _ => True
                  end) rest.
Proof.
  intros Hu.
  assert (cacheMiss env kw = true) as Hm by (unfold cacheMiss, cacheHit; by rewrite Hu).
  rewrite init_miss_trace by done. unfold fetchEvents, readEvents.
  rewrite Hu. simpl. eexists. split; [reflexivity|].
  destruct (mU_doImport_mmcif env (ccdPath env kw)); repeat constructor.
Qed.

Lemma no_cache_fetches_both_witness :
  useCache Sample2.kwNoCache = false ∧
  ∃ rest,
    trace (init Sample2.local Sample2.kwNoCache)
    = EvGet (ccUrlTarget Sample2.kwNoCache) (ccdPath Sample2.local Sample2.kwNoCache)
      :: EvGet (birdUrlTarget Sample2.kwNoCache)
               (birdPath Sample2.local Sample2.kwNoCache)
      :: EvImportMmCif (ccdPath Sample2.local Sample2.kwNoCache) :: rest ∧
    Forall (λ ev, match ev with
                  | EvGet _ _ | EvImport _ _ => False
                  | _ => True
                  end) rest.
Proof.
  split; [reflexivity|].
  apply (no_cache_fetches_both Sample2.local Sample2.kwNoCache). reflexivity.
Defined.

(** X4.  When the cache is in use, no artifact exists and local copies of
    both source files do, a construction fetches nothing: it reads the
    local copies and exports the store. *)
Theorem local_copies_not_fetched env kw :
  cacheMiss env kw = true →
  useCache kw = true →
  fU_exists env (ccdPath env kw) = true →
  fU_exists env (birdPath env kw) = true →
  Forall (λ ev, match ev with EvGet _ _ => False | _ => True end)
         (trace (init env kw)).
Proof.
  intros Hm Hu Hc Hb. rewrite init_miss_trace by done.
  unfold fetchEvents, readEvents. fold (ccdPath env kw). fold (birdPath env kw).
  rewrite Hu, Hc, Hb. simpl.
  destruct (mU_doImport_mmcif env (ccdPath env kw)); repeat constructor.
Qed.

Lemma local_copies_not_fetched_witness :
  cacheMiss Sample2.local Sample.kwPlain = true ∧
  Forall (λ ev, match ev with EvGet _ _ => False | _ => True end)
         (trace (init Sample2.local Sample.kwPlain)).
Proof.
  split; [reflexivity|].
  apply (local_copies_not_fetched Sample2.local Sample.kwPlain); reflexivity.
Defined.

(** X5.  When the import of a source file raises during a fresh build,
    the empty dictionary is what gets exported to the artifact path, and
    the supplementary file is not read if the primary import raised. *)
Theorem failed_read_exports_empty env kw :
  cacheMiss env kw = true →
  (∃ e, mU_doImport_mmcif env (ccdPath env kw) = Raise e) ∨
  (∃ e, mU_doImport_mmcif env (birdPath env kw) = Raise e) →
  value (init env kw) = Ok (Some ∅) ∧
  last (trace (init env kw)) = Some (EvExport (artifactPath kw) Pickle ∅) ∧
  (∀ e, mU_doImport_mmcif env (ccdPath env kw) = Raise e →
        readEvents env kw = [EvImportMmCif (ccdPath env kw)]).
Proof.
  intros Hm Hfail.
  assert (readStore env (ccdPath env kw) (Some (birdPath env kw)) (molLimit kw)
          = ∅) as Hrd.
  { unfold readStore. destruct (mU_doImport_mmcif env (ccdPath env kw)) as [lp|]
      eqn:Hp; [|done].
    rewrite birdPath_truthy. simpl.
    destruct (mU_doImport_mmcif env (birdPath env kw)) as [lb|] eqn:Hb; [|done].
    by destruct Hfail as [[e He]|[e He]]. }
  split_and!.
  - rewrite init_miss_value by done. by rewrite Hrd, applyFilter_empty.
  - rewrite init_miss_trace by done. rewrite Hrd, applyFilter_empty.
    rewrite !app_assoc. apply last_snoc.
  - intros e He. unfold readEvents. by rewrite He.
Qed.

Lemma failed_read_exports_empty_witness :
  cacheMiss Sample.envBirdFails Sample.kwPlain = true ∧
  value (init Sample.envBirdFails Sample.kwPlain) = Ok (Some ∅) ∧
  last (trace (init Sample.envBirdFails Sample.kwPlain))
  = Some (EvExport (artifactPath Sample.kwPlain) Pickle ∅).
Proof.
  split; [reflexivity|].
  destruct (failed_read_exports_empty Sample.envBirdFails Sample.kwPlain)
    as (Hv & Hl & _); [reflexivity| |by split].
  right. by exists IOError.
Defined.

(** ** Failures and the stored object *)

(** X6.  On a cache hit a failed import is not repaired by a fresh build:
    an exception of the import reaches the caller of the constructor, and
    an import that yields [None] makes the constructor raise
    [AttributeError] when a molecule limit is set and [TypeError]
    otherwise. *)
Theorem cache_hit_failure_propagates env kw :
  cacheHit env kw = true →
  (∀ e, mU_doImport env (artifactPath kw) (ccDataFormatOf (artifactPath kw))
        = Raise e →
        value (init env kw) = Raise e) ∧
  (mU_doImport env (artifactPath kw) (ccDataFormatOf (artifactPath kw))
   = Ok None →
   value (init env kw)
   = Raise (if int_truthy (molLimit kw) then AttributeError else TypeError)).
Proof.
  intros Hh. split.
  - intros e He. rewrite init_hit_value by done. by rewrite He.
  - intros He. rewrite init_hit_value by done. rewrite He.
    unfold limitReloaded. by destruct (int_truthy (molLimit kw)).
Qed.

Lemma cache_hit_failure_propagates_witness :
  cacheHit (Sample2.cachedResult (Ok None)) Sample.kwLimit2 = true ∧
  value (init (Sample2.cachedResult (Ok None)) Sample.kwLimit2)
  = Raise AttributeError ∧
  value (init (Sample2.cachedResult (Ok None)) Sample.kwPlain)
  = Raise TypeError.
Proof.
  split_and!; [reflexivity|..].
  - apply (cache_hit_failure_propagates (Sample2.cachedResult (Ok None))
                                        Sample.kwLimit2); reflexivity.
  - apply (cache_hit_failure_propagates (Sample2.cachedResult (Ok None))
                                        Sample.kwPlain); reflexivity.
Defined.

Lemma init_Some env kw o : value (init env kw) = Ok o → is_Some o.
Proof.
  destruct (cacheHit env kw) eqn:Hh.
  - rewrite init_hit_value by done.
    destruct (mU_doImport env _ _) as [rd|]; [|done].
    destruct (limitReloaded rd (molLimit kw)) as [[d|]|]; [|done..].
    simpl. intros [= <-]. by eexists.
  - rewrite init_miss_value by (unfold cacheMiss; by rewrite Hh).
    intros [= <-]. by eexists.
Qed.

(** X7.  A constructor that returns has stored a dictionary, never [None]:
    on the object it built, [testCache] with [minCount] zero or [None]
    returns [True], and [getMolD] returns that dictionary. *)
Theorem constructed_store_present env kw (ccMolD : option Store) :
  value (init env kw) = Ok ccMolD →
  (∃ d, getMolD ccMolD = Some d) ∧
  testCache ccMolD (Some 0) = VBool true ∧
  testCache ccMolD None = VBool true.
Proof.
  intros [d ->]%init_Some. split_and!; [by exists d|done..].
Qed.

Lemma constructed_store_present_witness :
  value (init Sample.envBirdFails Sample.kwPlain) = Ok (Some ∅) ∧
  (∃ d, getMolD (Some (∅ : Store)) = Some d) ∧
  testCache (Some (∅ : Store)) (Some 0) = VBool true ∧
  testCache (Some (∅ : Store)) None = VBool true.
Proof.
  split; [reflexivity|].
  apply (constructed_store_present Sample.envBirdFails Sample.kwPlain (Some ∅)).
  reflexivity.
Defined.

(** X8.  On a cache hit the filter set plays no part: the constructor
    returns the same object and makes the same call whatever [filterIdD]
    is, so an artifact built with one filter is reused as it is. *)
Theorem cache_hit_ignores_filter env kw (f : option (gset string)) :
  cacheHit env kw = true →
  init env (withFilter kw f) = init env kw.
Proof.
  intros Hh.
  assert (cacheHit env (withFilter kw f) = true) as Hh' by exact Hh.
  destruct (init env (withFilter kw f)) as [t r] eqn:E1.
  destruct (init env kw) as [t' r'] eqn:E2.
  pose proof (init_hit_trace env _ Hh') as Ht1.
  pose proof (init_hit_trace env _ Hh) as Ht2.
  pose proof (init_hit_value env _ Hh') as Hv1.
  pose proof (init_hit_value env _ Hh) as Hv2.
  rewrite E1 in Ht1, Hv1. rewrite E2 in Ht2, Hv2. simpl in *.
  change (artifactPath (withFilter kw f)) with (artifactPath kw) in *.
  change (molLimit (withFilter kw f)) with (molLimit kw) in *.
  congruence.
Qed.

Lemma cache_hit_ignores_filter_witness :
  cacheHit Sample.envCached Sample.kwPlain = true ∧
  init Sample.envCached (withFilter Sample.kwPlain (Some {["A"]}))
  = init Sample.envCached Sample.kwPlain.
Proof.
  split; [reflexivity|].
  apply (cache_hit_ignores_filter Sample.envCached Sample.kwPlain). reflexivity.
Defined.

(** ** More on the molecule limit *)

Lemma slice_to_neg {A} (l : list A) (n : Z) :
  n < 0 → slice_to l n = take (length l - Z.to_nat (- n)) l.
Proof.
  intros Hn. unfold slice_to. destruct (n <? 0) eqn:E; [|lia].
  f_equal. lia.
Qed.

Lemma limitReloaded_take (d : Store) (N : Z) (m : nat) :
  N ≠ 0 →
  slice_to (sorted (keys d)) N = firstKeys d m →
  ∃ d', limitReloaded (Some d) (Some N) = Ok (Some d') ∧
        ∀ k, d' !! k = if decide (k ∈ firstKeys d m) then d !! k else None.
Proof.
  intros HN Hs. unfold limitReloaded, int_truthy.
  destruct (N =? 0) eqn:E; [lia|]. simpl. rewrite Hs.
  destruct (selectKeys_ok d (firstKeys d m) ∅) as (d' & Hd' & Hl).
  { intros k. apply elem_of_firstKeys_dom. }
  rewrite Hd'. exists d'. split; [done|].
  intros k. rewrite Hl. case_decide; [done|]. apply lookup_empty.
Qed.

(** A dictionary cut to its first [m] keys. *)
Lemma firstKeys_store (d d' : Store) (m : nat) :
  (∀ k, d' !! k = if decide (k ∈ firstKeys d m) then d !! k else None) →
  d' ⊆ d ∧
  dom d' = list_to_set (firstKeys d m) ∧
  size d' = (m `min` size d)%nat ∧
  (∀ k k', k ∈ dom d' → k' ∈ dom d → k' ∉ dom d' → String.le k k').
Proof.
  intros Hl.
  assert (dom d' = list_to_set (firstKeys d m)) as Hdom.
  { apply set_eq. intros k. rewrite elem_of_dom, elem_of_list_to_set, Hl.
    destruct (decide (k ∈ firstKeys d m)) as [Hk|Hk].
    - split; [done|]. intros _. by eapply elem_of_firstKeys_dom.
    - split; [by intros [? ?]|done]. }
  split_and!.
  - apply map_subseteq_spec. intros k c. rewrite Hl. by case_decide.
  - exact Hdom.
  - rewrite <-(size_dom (D:=gset string)), Hdom, size_list_to_set
      by apply NoDup_firstKeys.
    apply length_firstKeys.
  - intros k k'. rewrite Hdom, !elem_of_list_to_set, elem_of_dom.
    apply firstKeys_least.
Qed.

Lemma firstKeys_all (d d' : Store) (m : nat) :
  (size d ≤ m)%nat →
  (∀ k, d' !! k = if decide (k ∈ firstKeys d m) then d !! k else None) →
  d' = d.
Proof.
  intros Hm Hl. apply map_eq. intros k. rewrite Hl.
  unfold firstKeys. rewrite take_ge
    by (rewrite (Permutation_length (sorted_Permutation (keys d))), length_keys; lia).
  case_decide as Hk; [done|]. symmetry. apply eq_None_not_Some. intros Hs.
  apply Hk. rewrite (sorted_Permutation (keys d)). by apply elem_of_keys.
Qed.

Lemma init_hit_limited env kw (d d' : Store) :
  cacheHit env kw = true →
  mU_doImport env (artifactPath kw) (ccDataFormatOf (artifactPath kw))
  = Ok (Some d) →
  limitReloaded (Some d) (molLimit kw) = Ok (Some d') →
  value (init env kw) = Ok (Some d').
Proof.
  intros Hh Himp Hlim. rewrite init_hit_value by done. by rewrite Himp, Hlim.
Qed.

(** X9.  On a cache hit with a negative molecule limit [N], the slice
    [[:N]] leaves out the [|N|] greatest keys: the store is the
    deserialized dictionary without them, empty when it has no more than
    [|N|] keys. *)
Theorem reload_negative_limit env kw (d : Store) (N : Z) :
  cacheHit env kw = true →
  mU_doImport env (artifactPath kw) (ccDataFormatOf (artifactPath kw))
  = Ok (Some d) →
  molLimit kw = Some N →
  N < 0 →
  ∃ d', value (init env kw) = Ok (Some d') ∧
        d' ⊆ d ∧
        size d' = (size d - Z.to_nat (- N))%nat ∧
        (∀ k k', k ∈ dom d' → k' ∈ dom d → k' ∉ dom d' → String.le k k').
Proof.
  intros Hh Himp Hlim HN.
  destruct (limitReloaded_take d N (size d - Z.to_nat (- N))) as (d' & Hd' & Hl);
    [lia| |].
  { rewrite slice_to_neg by done. unfold firstKeys.
    by rewrite (Permutation_length (sorted_Permutation (keys d))), length_keys. }
  destruct (firstKeys_store d d' _ Hl) as (Hsub & _ & Hsize & Hleast).
  exists d'. split_and!; [|done| |done].
  - apply (init_hit_limited env kw d); [done..|]. by rewrite Hlim.
  - lia.
Qed.

Lemma reload_negative_limit_witness :
  cacheHit Sample.envCached (Sample.kw (Some (-1)) None) = true ∧
  -1 < 0 ∧
  ∃ d', value (init Sample.envCached (Sample.kw (Some (-1)) None)) = Ok (Some d') ∧
        d' ⊆ Sample.stored ∧
        size d' = (size Sample.stored - Z.to_nat (- -1))%nat ∧
        (∀ k k', k ∈ dom d' → k' ∈ dom Sample.stored → k' ∉ dom d' →
                 String.le k k').
Proof.
  split_and!; [reflexivity|lia|].
  apply (reload_negative_limit Sample.envCached (Sample.kw (Some (-1)) None)
                               Sample.stored (-1));
    [reflexivity|reflexivity|reflexivity|lia].
Defined.

Lemma init_hit_covers env kw (d : Store) (N : Z) :
  cacheHit env kw = true →
  mU_doImport env (artifactPath kw) (ccDataFormatOf (artifactPath kw))
  = Ok (Some d) →
  molLimit kw = Some N →
  Z.of_nat (size d) ≤ N →
  value (init env kw) = Ok (Some d).
Proof.
  intros Hh Himp Hlim HN.
  destruct (decide (N = 0)) as [->|Hne].
  { apply (init_hit_limited env kw d); [done..|]. by rewrite Hlim. }
  destruct (limitReloaded_take d N (Z.to_nat N)) as (d' & Hd' & Hl); [done| |].
  { by rewrite slice_to_pos by lia. }
  apply (init_hit_limited env kw d); [done..|]. rewrite Hlim, Hd'.
  do 2 f_equal. apply (firstKeys_all d d' (Z.to_nat N)); [lia|done].
Qed.

(** X10.  On a cache hit, a molecule limit no smaller than the number of
    entries of the deserialized dictionary changes nothing: the store is
    that dictionary. *)
Theorem reload_limit_covers env kw (d : Store) (N : Z) :
  cacheHit env kw = true →
  mU_doImport env (artifactPath kw) (ccDataFormatOf (artifactPath kw))
  = Ok (Some d) →
  molLimit kw = Some N →
  Z.of_nat (size d) ≤ N →
  value (init env kw) = Ok (Some d).
Proof. apply init_hit_covers. Qed.

Lemma reload_limit_covers_witness :
  cacheHit Sample.envCached (Sample.kw (Some 4) None) = true ∧
  Z.of_nat (size Sample.stored) ≤ 4 ∧
  value (init Sample.envCached (Sample.kw (Some 4) None)) = Ok (Some Sample.stored).
Proof.
  assert (Z.of_nat (size Sample.stored) ≤ 4) as Hs by (vm_compute; discriminate).
  split_and!; [reflexivity|exact Hs|].
  apply (reload_limit_covers Sample.envCached (Sample.kw (Some 4) None)
                             Sample.stored 4);
    [reflexivity|reflexivity|reflexivity|exact Hs].
Defined.

(** X11.  On a cache hit, raising a positive molecule limit only adds
    entries: the store for the smaller limit is contained in the store for
    the larger one. *)
Theorem reload_limit_monotone env kw (d : Store) (N M : Z) :
  cacheHit env kw = true →
  mU_doImport env (artifactPath kw) (ccDataFormatOf (artifactPath kw))
  = Ok (Some d) →
  0 < N →
  N ≤ M →
  ∃ dN dM, value (init env (withLimit kw (Some N))) = Ok (Some dN) ∧
           value (init env (withLimit kw (Some M))) = Ok (Some dM) ∧
           dN ⊆ dM ∧ dM ⊆ d.
Proof.
  intros Hh Himp HN HM.
  destruct (limitReloaded_pos d N HN) as (dN & HdN & HlN).
  destruct (limitReloaded_pos d M ltac:(lia)) as (dM & HdM & HlM).
  exists dN, dM. split_and!.
  - by apply (init_hit_limited env (withLimit kw (Some N)) d).
  - by apply (init_hit_limited env (withLimit kw (Some M)) d).
  - apply map_subseteq_spec. intros k c. rewrite HlN, HlM.
    destruct (decide (k ∈ firstKeys d (Z.to_nat N))) as [Hk|]; [|done].
    rewrite decide_True; [done|]. unfold firstKeys in *.
    replace (Z.to_nat N) with (Z.to_nat N `min` Z.to_nat M)%nat in Hk by lia.
    rewrite <-take_take in Hk. by apply subseteq_take in Hk.
  - apply map_subseteq_spec. intros k c. rewrite HlM. by case_decide.
Qed.

Lemma reload_limit_monotone_witness :
  cacheHit Sample.envCached Sample.kwPlain = true ∧
  0 < 1 ∧ 1 ≤ 3 ∧
  ∃ dN dM,
    value (init Sample.envCached (withLimit Sample.kwPlain (Some 1))) = Ok (Some dN) ∧
    value (init Sample.envCached (withLimit Sample.kwPlain (Some 3))) = Ok (Some dM) ∧
    dN ⊆ dM ∧ dM ⊆ Sample.stored.
Proof.
  split_and!; [reflexivity|lia|lia|].
  apply (reload_limit_monotone Sample.envCached Sample.kwPlain Sample.stored 1 3);
    [reflexivity|reflexivity|lia|lia].
Defined.

(** ** The keys and records of a fresh build *)

Lemma getMol_lookup (d : Store) k : getMol (Some d) k = Ok (d !! k).
Proof. unfold getMol, subscript. by destruct (d !! k). Qed.

Lemma dom_keyLoop l (d : Store) :
  dom (keyLoop l d) = list_to_set (ccIdOf <$> l) ∪ dom d.
Proof.
  revert d. induction l as [|c l IH]; intros d; simpl.
  - by rewrite union_empty_l_L.
  - rewrite IH, dom_insert_L. apply set_eq. intros k.
    rewrite !elem_of_union. tauto.
Qed.

Lemma keyLoop_lookup_split l k c :
  keyLoop l ∅ !! k = Some c →
  ∃ l1 l2, l = l1 ++ c :: l2 ∧ ccIdOf c = k ∧
           Forall (λ c', ccIdOf c' ≠ k) l2.
Proof.
  induction l as [|c0 l IH] using rev_ind; [simpl; by rewrite lookup_empty|].
  rewrite keyLoop_app. simpl.
  destruct (decide (ccIdOf c0 = k)) as [Heq|Hne].
  - rewrite Heq, lookup_insert_eq. intros [= <-].
    exists l, []. split_and!; [done|done|constructor].
  - rewrite lookup_insert_ne by done. intros (l1 & l2 & -> & Hk & Hl2)%IH.
    exists l1, (l2 ++ [c0]). split_and!; [by rewrite <-app_assoc|done|].
    apply Forall_app. split; [done|]. by constructor.
Qed.

Lemma keyLoop_NoDup l :
  NoDup (ccIdOf <$> l) →
  size (keyLoop l ∅) = length l ∧ ∀ c, c ∈ l → keyLoop l ∅ !! ccIdOf c = Some c.
Proof.
  induction l as [|c0 l IH] using rev_ind; [by split; [|intros ? ?%elem_of_nil]|].
  rewrite fmap_app. intros Hnd. apply NoDup_app in Hnd as (Hl & Hdisj & _).
  destruct (IH Hl) as [Hsize Hall].
  assert (keyLoop l ∅ !! ccIdOf c0 = None) as Hfresh.
  { apply not_elem_of_dom. rewrite dom_keyLoop, dom_empty_L, union_empty_r_L.
    rewrite elem_of_list_to_set. intros Hin. apply (Hdisj _ Hin). by left. }
  rewrite keyLoop_app. simpl. split.
  - rewrite map_size_insert_None by done. rewrite length_app, Hsize. simpl. lia.
  - intros c [Hc|Hc%list_elem_of_singleton]%elem_of_app.
    + rewrite lookup_insert_ne; [by apply Hall|].
      intros Heq. rewrite Heq in Hfresh. rewrite Hall in Hfresh; done.
    + subst c. apply lookup_insert_eq.
Qed.

Lemma applyFilter_lookup_Some (d : Store) f k c :
  applyFilter d f !! k = Some c ↔
  d !! k = Some c ∧ (filter_truthy f = true → k ∈ default ∅ f).
Proof.
  unfold applyFilter. destruct (filter_truthy f).
  - rewrite map_lookup_filter_Some. simpl. split.
    + intros [Hd Hk]. split; [done|]. by intros _.
    + intros [Hd Hk]. split; [done|]. by apply Hk.
  - split; [by intros Hd; split|by intros [Hd _]].
Qed.

(** X12.  The keys of a freshly built store are exactly the identifiers of
    the records processed that the filter, when it applies, lets through. *)
Theorem fresh_build_keys env kw lp lb :
  cacheMiss env kw = true →
  parsed env kw lp lb →
  ∃ d, value (init env kw) = Ok (Some d) ∧
       ∀ k, k ∈ dom d ↔
            (∃ ccObj, ccObj ∈ processed kw lp lb ∧ ccIdOf ccObj = k) ∧
            (filter_truthy (filterIdD kw) = true → k ∈ default ∅ (filterIdD kw)).
Proof.
  intros Hm Hp. eexists. split; [by apply init_miss_parsed|].
  intros k. fold (processed kw lp lb). rewrite elem_of_dom. split.
  - intros [c [Hc Hf]%applyFilter_lookup_Some]. split; [|done].
    apply keyLoop_lookup_inv in Hc as [[? ?]|Hc]; [by exists c|].
    by rewrite lookup_empty in Hc.
  - intros [(c & Hin & Hid) Hf].
    destruct (keyLoop_elem _ ∅ _ Hin) as (c' & _ & _ & Hl).
    subst k. exists c'. apply applyFilter_lookup_Some. by split.
Qed.

Lemma fresh_build_keys_witness :
  cacheMiss Sample.envBoth Sample.kwFilter = true ∧
  parsed Sample.envBoth Sample.kwFilter Sample.primary Sample.bird ∧
  ∃ d, value (init Sample.envBoth Sample.kwFilter) = Ok (Some d) ∧
       ∀ k, k ∈ dom d ↔
            (∃ ccObj, ccObj ∈ processed Sample.kwFilter Sample.primary Sample.bird ∧
                      ccIdOf ccObj = k) ∧
            (filter_truthy (filterIdD Sample.kwFilter) = true →
             k ∈ default ∅ (filterIdD Sample.kwFilter)).
Proof.
  split_and!; [reflexivity|split; reflexivity|].
  apply (fresh_build_keys Sample.envBoth Sample.kwFilter Sample.primary Sample.bird);
    [reflexivity|split; reflexivity].
Defined.

(** X13.  Whatever [getMol] returns from a freshly built store is a record
    that was processed, stored under its own identifier, and the last
    processed record with that identifier. *)
Theorem fresh_lookup_is_last env kw lp lb (d : Store) k (ccObj : DataContainer) :
  cacheMiss env kw = true →
  parsed env kw lp lb →
  value (init env kw) = Ok (Some d) →
  getMol (Some d) k = Ok (Some ccObj) →
  ∃ l1 l2, processed kw lp lb = l1 ++ ccObj :: l2 ∧
           ccIdOf ccObj = k ∧
           Forall (λ c', ccIdOf c' ≠ k) l2.
Proof.
  intros Hm Hp Hd Hg. rewrite (init_miss_parsed env kw lp lb) in Hd by done.
  injection Hd as <-. unfold getMol, subscript in Hg.
  destruct (applyFilter _ _ !! k) as [c|] eqn:Hc; [|done].
  injection Hg as ->. apply applyFilter_lookup_Some in Hc as [Hc _].
  by apply keyLoop_lookup_split.
Qed.

Lemma fresh_lookup_is_last_witness :
  cacheMiss Sample.envBoth Sample.kwPlain = true ∧
  parsed Sample.envBoth Sample.kwPlain Sample.primary Sample.bird ∧
  ∃ l1 l2, processed Sample.kwPlain Sample.primary Sample.bird
           = l1 ++ Sample.prdA :: l2 ∧
           ccIdOf Sample.prdA = "A" ∧
           Forall (λ c', ccIdOf c' ≠ "A") l2.
Proof.
  split_and!; [reflexivity|split; reflexivity|].
  apply (fresh_lookup_is_last Sample.envBoth Sample.kwPlain Sample.primary
           Sample.bird (keyLoop (Sample.primary ++ Sample.bird) ∅) "A" Sample.prdA);
    [reflexivity|split; reflexivity|reflexivity|reflexivity].
Defined.

(** X14.  When the records processed have pairwise distinct identifiers
    and no filter applies, a fresh build loses none of them: the store has
    as many entries as records, and [getMol] returns each record under its
    identifier. *)
Theorem distinct_ids_all_kept env kw lp lb :
  cacheMiss env kw = true →
  parsed env kw lp lb →
  filter_truthy (filterIdD kw) = false →
  NoDup (ccIdOf <$> processed kw lp lb) →
  ∃ d, value (init env kw) = Ok (Some d) ∧
       size d = length (processed kw lp lb) ∧
       ∀ ccObj, ccObj ∈ processed kw lp lb →
                getMol (Some d) (ccIdOf ccObj) = Ok (Some ccObj).
Proof.
  intros Hm Hp Hf Hnd. destruct (keyLoop_NoDup _ Hnd) as [Hsize Hall].
  exists (keyLoop (processed kw lp lb) ∅). split_and!.
  - rewrite (init_miss_parsed env kw lp lb) by done. by rewrite applyFilter_off.
  - done.
  - intros c Hc. unfold getMol, subscript. by rewrite Hall.
Qed.

Lemma distinct_ids_all_kept_witness :
  cacheMiss Sample2.envDistinct Sample.kwPlain = true ∧
  parsed Sample2.envDistinct Sample.kwPlain Sample2.distinct [Sample.prdD] ∧
  NoDup (ccIdOf <$> processed Sample.kwPlain Sample2.distinct [Sample.prdD]) ∧
  ∃ d, value (init Sample2.envDistinct Sample.kwPlain) = Ok (Some d) ∧
       size d = length (processed Sample.kwPlain Sample2.distinct [Sample.prdD]) ∧
       ∀ ccObj, ccObj ∈ processed Sample.kwPlain Sample2.distinct [Sample.prdD] →
                getMol (Some d) (ccIdOf ccObj) = Ok (Some ccObj).
Proof.
  assert (NoDup (ccIdOf <$> processed Sample.kwPlain Sample2.distinct [Sample.prdD]))
    as Hnd by (apply (bool_decide_unpack _); vm_compute; exact I).
  split_and!; [reflexivity|split; reflexivity|exact Hnd|].
  apply (distinct_ids_all_kept Sample2.envDistinct Sample.kwPlain
                               Sample2.distinct [Sample.prdD]);
    [reflexivity|split; reflexivity|reflexivity|exact Hnd].
Defined.

(** X15.  After a fresh build with a non-empty filter set, [getMol]
    returns [None] for every identifier outside the set, whatever the
    source files held. *)
Theorem filtered_out_lookup env kw (ids : gset string) (d : Store) k :
  cacheMiss env kw = true →
  filterIdD kw = Some ids →
  ids ≠ ∅ →
  value (init env kw) = Ok (Some d) →
  k ∉ ids →
  getMol (Some d) k = Ok None.
Proof.
  intros Hm Hf Hne Hd Hk. rewrite init_miss_value in Hd by done.
  injection Hd as <-. rewrite getMol_lookup. simpl.
  destruct (applyFilter _ _ !! k) as [c|] eqn:Hc; [|done].
  apply applyFilter_lookup_Some in Hc as [_ Hin]. rewrite Hf in Hin.
  destruct Hk. apply Hin. simpl. by rewrite bool_decide_eq_false_2.
Qed.

Lemma filtered_out_lookup_witness :
  cacheMiss Sample.envBoth Sample.kwFilter = true ∧
  filterIdD Sample.kwFilter = Some {["A"; "D"; "ZZZ"]} ∧
  ("C" ∉ ({["A"; "D"; "ZZZ"]} : gset string)) ∧
  ∃ d, value (init Sample.envBoth Sample.kwFilter) = Ok (Some d) ∧
       getMol (Some d) "C" = Ok None.
Proof.
  assert ("C" ∉ ({["A"; "D"; "ZZZ"]} : gset string)) as HC
    by (apply (bool_decide_unpack _); vm_compute; exact I).
  assert (({["A"; "D"; "ZZZ"]} : gset string) ≠ ∅) as Hne
    by (apply (bool_decide_unpack _); vm_compute; exact I).
  split_and!; [reflexivity|reflexivity|exact HC|].
  eexists. split; [by apply init_miss_value|].
  apply (filtered_out_lookup Sample.envBoth Sample.kwFilter {["A"; "D"; "ZZZ"]});
    [reflexivity|reflexivity|exact Hne|by apply init_miss_value|exact HC].
Defined.

(** ** Limits of a fresh build, and reloading what was built *)

(** X16.  In a fresh build a negative molecule limit [N] leaves out the
    last [|N|] records of the primary records followed by the
    supplementary ones; the store is keyed from the others. *)
Theorem fresh_negative_limit env kw lp lb (N : Z) :
  cacheMiss env kw = true →
  parsed env kw lp lb →
  molLimit kw = Some N →
  N < 0 →
  processed kw lp lb = take (length (lp ++ lb) - Z.to_nat (- N)) (lp ++ lb) ∧
  value (init env kw)
  = Ok (Some (applyFilter
                (keyLoop (take (length (lp ++ lb) - Z.to_nat (- N)) (lp ++ lb)) ∅)
                (filterIdD kw))).
Proof.
  intros Hm Hp Hlim HN.
  assert (processed kw lp lb
          = take (length (lp ++ lb) - Z.to_nat (- N)) (lp ++ lb)) as Hpr.
  { unfold processed, limitRecords, int_truthy. rewrite Hlim.
    destruct (N =? 0) eqn:E; [lia|]. simpl. by apply slice_to_neg. }
  split; [exact Hpr|].
  rewrite (init_miss_parsed env kw lp lb) by done.
  fold (processed kw lp lb). by rewrite Hpr.
Qed.

Lemma fresh_negative_limit_witness :
  cacheMiss Sample.envBoth (Sample.kw (Some (-2)) None) = true ∧
  parsed Sample.envBoth (Sample.kw (Some (-2)) None) Sample.primary Sample.bird ∧
  -2 < 0 ∧
  processed (Sample.kw (Some (-2)) None) Sample.primary Sample.bird
  = take (length (Sample.primary ++ Sample.bird) - Z.to_nat (- -2))
         (Sample.primary ++ Sample.bird) ∧
  value (init Sample.envBoth (Sample.kw (Some (-2)) None))
  = Ok (Some (applyFilter
                (keyLoop (take (length (Sample.primary ++ Sample.bird)
                                - Z.to_nat (- -2))
                               (Sample.primary ++ Sample.bird)) ∅)
                (filterIdD (Sample.kw (Some (-2)) None)))).
Proof.
  split_and!; [reflexivity|split; reflexivity|lia|..];
    apply (fresh_negative_limit Sample.envBoth (Sample.kw (Some (-2)) None)
                                Sample.primary Sample.bird (-2));
    try reflexivity; try (split; reflexivity); lia.
Defined.

(** X17.  In a fresh build a molecule limit no smaller than the number of
    records read changes nothing: the constructor returns what it returns
    with no limit. *)
Theorem fresh_limit_covers env kw lp lb (N : Z) :
  cacheMiss env kw = true →
  parsed env kw lp lb →
  molLimit kw = Some N →
  Z.of_nat (length (lp ++ lb)) ≤ N →
  value (init env kw) = value (init env (withLimit kw None)).
Proof.
  intros Hm Hp Hlim HN.
  rewrite (init_miss_parsed env kw lp lb) by done.
  rewrite (init_miss_parsed env (withLimit kw None) lp lb) by done.
  rewrite Hlim. simpl.
  unfold limitRecords, int_truthy. destruct (N =? 0) eqn:E; [done|]. simpl.
  rewrite slice_to_pos by lia. by rewrite take_ge by lia.
Qed.

Lemma fresh_limit_covers_witness :
  cacheMiss Sample.envBoth (Sample.kw (Some 6) None) = true ∧
  parsed Sample.envBoth (Sample.kw (Some 6) None) Sample.primary Sample.bird ∧
  Z.of_nat (length (Sample.primary ++ Sample.bird)) ≤ 6 ∧
  value (init Sample.envBoth (Sample.kw (Some 6) None))
  = value (init Sample.envBoth (withLimit (Sample.kw (Some 6) None) None)).
Proof.
  assert (Z.of_nat (length (Sample.primary ++ Sample.bird)) ≤ 6) as Hl
    by (simpl; lia).
  split_and!; [reflexivity|split; reflexivity|exact Hl|].
  apply (fresh_limit_covers Sample.envBoth (Sample.kw (Some 6) None)
                            Sample.primary Sample.bird 6);
    [reflexivity|split; reflexivity|reflexivity|exact Hl].
Defined.

Lemma readStore_size env ccd prd (N : Z) :
  0 < N → (size (readStore env ccd prd (Some N)) ≤ Z.to_nat N)%nat.
Proof.
  intros HN. unfold readStore.
  assert (∀ l, (size (keyLoop (limitRecords l (Some N)) ∅) ≤ Z.to_nat N)%nat)
    as Hk.
  { intros l. rewrite limitRecords_pos by done.
    pose proof (keyLoop_size (take (Z.to_nat N) l) ∅) as Hs.
    rewrite map_size_empty, length_take in Hs. lia. }
  destruct (mU_doImport_mmcif env ccd); [|rewrite map_size_empty; lia].
  destruct (str_truthy prd); [|apply Hk].
  destruct (mU_doImport_mmcif env (default "" prd));
    [apply Hk|rewrite map_size_empty; lia].
Qed.

(** X18.  Reloading what a fresh build stored gives the same store: when
    a later construction with the same arguments and a molecule limit that
    is not negative hits an artifact that deserializes to the store the
    fresh build returned, it returns that store. *)
Theorem reload_of_built_store env env' kw (d : Store) :
  cacheMiss env kw = true →
  value (init env kw) = Ok (Some d) →
  cacheHit env' kw = true →
  mU_doImport env' (artifactPath kw) (ccDataFormatOf (artifactPath kw))
  = Ok (Some d) →
  (∀ N, molLimit kw = Some N → 0 ≤ N) →
  value (init env' kw) = Ok (Some d).
Proof.
  intros Hm Hd Hh Himp Hlim.
  destruct (molLimit kw) as [N|] eqn:HN.
  - destruct (decide (N = 0)) as [->|Hne].
    + apply (init_hit_limited env' kw d); [done..|]. by rewrite HN.
    + pose proof (Hlim N eq_refl) as H0.
      apply (init_hit_covers env' kw d N); [done..|].
      rewrite init_miss_value in Hd by done. injection Hd as <-.
      pose proof (applyFilter_subseteq
                    (readStore env (ccdPath env kw) (Some (birdPath env kw))
                               (molLimit kw))
                    (filterIdD kw)) as Hsub%map_subseteq_size.
      pose proof (readStore_size env (ccdPath env kw) (Some (birdPath env kw)) N
                    ltac:(lia)) as Hsz.
      rewrite HN in *. lia.
  - apply (init_hit_limited env' kw d); [done..|]. by rewrite HN.
Qed.

Lemma reload_of_built_store_witness :
  cacheMiss Sample.envBoth Sample.kwLimit2 = true ∧
  cacheHit (Sample.cached (keyLoop (take 2 Sample.primary) ∅)) Sample.kwLimit2
  = true ∧
  value (init Sample.envBoth Sample.kwLimit2)
  = Ok (Some (keyLoop (take 2 Sample.primary) ∅)) ∧
  value (init (Sample.cached (keyLoop (take 2 Sample.primary) ∅)) Sample.kwLimit2)
  = Ok (Some (keyLoop (take 2 Sample.primary) ∅)).
Proof.
  split_and!; [reflexivity|reflexivity|reflexivity|].
  apply (reload_of_built_store Sample.envBoth
           (Sample.cached (keyLoop (take 2 Sample.primary) ∅)) Sample.kwLimit2);
    [reflexivity|reflexivity|reflexivity|reflexivity|].
  intros N [= <-]. lia.
Defined.

(** X19.  Called without a supplementary path ([None], or the empty
    string), [__readComponentDefinitions] reads the primary file only and
    keys its records; it returns the empty dictionary when that import
    raises. *)
Theorem read_primary_only env ccd (prd : option string) lim :
  str_truthy prd = false →
  trace (readComponentDefinitions env ccd prd lim) = [EvImportMmCif ccd] ∧
  value (readComponentDefinitions env ccd prd lim)
  = Ok (match mU_doImport_mmcif env ccd with
        | Ok lp => keyLoop (limitRecords lp lim) ∅
        | Raise _ => ∅
        end).
Proof.
  intros Hprd. split.
  - unfold readComponentDefinitions, readRecords, importMmCif. rewrite Hprd.
    by destruct (mU_doImport_mmcif env ccd).
  - rewrite readComponentDefinitions_value. unfold readStore. by rewrite Hprd.
Qed.

Lemma read_primary_only_witness :
  str_truthy (Some "") = false ∧
  trace (readComponentDefinitions Sample.envBoth "./chem_comp/components.cif"
                                  (Some "") None)
  = [EvImportMmCif "./chem_comp/components.cif"] ∧
  value (readComponentDefinitions Sample.envBoth "./chem_comp/components.cif"
                                  (Some "") None)
  = Ok (keyLoop Sample.primary ∅).
Proof.
  split; [reflexivity|].
  apply (read_primary_only Sample.envBoth "./chem_comp/components.cif" (Some "") None).
  reflexivity.
Defined.

(** ** What the validation returns *)

(** X20.  [testCache] returns a boolean only when [minCount] is zero or
    [None], or the store is a non-empty dictionary; with a non-zero
    [minCount] it returns [None] for an absent store and the empty
    dictionary itself for an empty one. *)
Theorem testCache_result_kind (ccMolD : option Store) (minCount : option Z) :
  ((∃ b, testCache ccMolD minCount = VBool b) ↔
   int_truthy minCount = false ∨ ∃ d, ccMolD = Some d ∧ d ≠ ∅) ∧
  (int_truthy minCount = true →
   testCache None minCount = VNone ∧
   testCache (Some ∅) minCount = VDict ∅).
Proof.
  unfold testCache. destruct (int_truthy minCount); split.
  - destruct ccMolD as [d|]; simpl.
    + destruct (bool_decide (d = ∅)) eqn:Hd; simpl.
      * apply bool_decide_eq_true in Hd. split; [by intros [b ?]|].
        intros [?|(d' & [= <-] & Hne)]; done.
      * apply bool_decide_eq_false in Hd. split; [|by eexists].
        intros _. right. by exists d.
    + split; [by intros [b ?]|]. by intros [?|(d & ? & _)].
  - intros _. split; reflexivity.
  - split; [by left|by eexists].
  - done.
Qed.

Lemma testCache_pass (d : Store) (n : Z) :
  truthy (testCache (Some d) (Some n)) = true ↔
  n = 0 ∨ (d ≠ ∅ ∧ n ≤ Z.of_nat (size d)).
Proof.
  unfold testCache, int_truthy. destruct (n =? 0) eqn:E; simpl.
  - split; [intros _; left; lia|done].
  - destruct (bool_decide (d = ∅)) eqn:Hd; simpl.
    + apply bool_decide_eq_true in Hd. rewrite Hd. simpl.
      split; [done|]. intros [?|[? _]]; [lia|done].
    + apply bool_decide_eq_false in Hd. rewrite bool_decide_eq_true.
      split; [by right|]. intros [?|[_ ?]]; [lia|done].
Qed.

(** X21.  A store that passes [testCache] at a threshold also passes at
    every smaller threshold that is not negative, and so does every
    dictionary that contains it. *)
Theorem testCache_monotone (d d' : Store) (n m : Z) :
  truthy (testCache (Some d) (Some n)) = true →
  d ⊆ d' →
  0 ≤ m →
  m ≤ n →
  truthy (testCache (Some d') (Some m)) = true.
Proof.
  intros Hn Hsub Hm Hmn. apply testCache_pass.
  apply testCache_pass in Hn as [->|[Hne Hsz]]; [left; lia|].
  right. pose proof (map_subseteq_size _ _ Hsub). split; [|lia].
  intros ->. apply map_size_non_empty_iff in Hne. rewrite map_size_empty in *. lia.
Qed.

Lemma testCache_monotone_witness :
  truthy (testCache (Some Sample.stored) (Some 4)) = true ∧
  Sample.stored ⊆ Sample.stored ∧
  0 ≤ 2 ∧ 2 ≤ 4 ∧
  truthy (testCache (Some Sample.stored) (Some 2)) = true.
Proof.
  split_and!; [reflexivity|done|lia|lia|].
  apply (testCache_monotone Sample.stored Sample.stored 4 2);
    [reflexivity|done|lia|lia].
Defined.

(** ** Where the artifact lies *)

Lemma endswith_app c (X Y : string) :
  Y ≠ "" → endswith c (X +:+ Y) = endswith c Y.
Proof.
  intros HY. induction X as [|a X IH]; [done|].
  rewrite app_cons. simpl. rewrite IH.
  destruct (X +:+ Y) eqn:E; [|done].
  destruct X; [by destruct HY|discriminate E].
Qed.

Lemma dirPathOf_no_slash kw : endswith "/" (dirPathOf kw) = false.
Proof.
  unfold dirPathOf, join. simpl.
  destruct (_ || _).
  - by rewrite endswith_app.
  - rewrite <-app_assoc_str. by rewrite endswith_app.
Qed.

Lemma startswith_app c (X Y : string) :
  X ≠ "" → startswith c (X +:+ Y) = startswith c X.
Proof. by destruct X. Qed.

Lemma artifactPath_relative kw :
  startswith "/" (ccFileNamePrefix kw) = false →
  artifactPath kw = dirPathOf kw +:+ "/" +:+ ccFileNamePrefix kw +:+ "-data.pic".
Proof.
  intros Hp. unfold artifactPath, ccDataFilePathOf, join.
  assert (startswith "/" (ccFileNamePrefix kw +:+ "-data.pic") = false) as ->.
  { destruct (ccFileNamePrefix kw); [done|]. exact Hp. }
  rewrite dirPathOf_no_slash, orb_false_r.
  rewrite bool_decide_eq_false_2 by apply dirPathOf_nonempty. done.
Qed.

(** X22.  The artifact lies in the directory [chem_comp] of the cache path
    under the name [<prefix>-data.pic], unless the prefix starts with a
    slash: then the cache path is ignored and the artifact path is the
    prefix followed by [-data.pic]. *)
Theorem artifact_path_location kw :
  (startswith "/" (ccFileNamePrefix kw) = false →
   artifactPath kw
   = join (cachePath kw) "chem_comp" +:+ "/" +:+ ccFileNamePrefix kw +:+ "-data.pic") ∧
  (startswith "/" (ccFileNamePrefix kw) = true →
   artifactPath kw = ccFileNamePrefix kw +:+ "-data.pic").
Proof.
  split.
  - apply artifactPath_relative.
  - intros Hp. unfold artifactPath, ccDataFilePathOf, join.
    rewrite startswith_app; [by rewrite Hp|]. by destruct (ccFileNamePrefix kw).
Qed.

Lemma artifact_path_location_witness :
  artifactPath Sample.kwPlain = "./chem_comp/cc-data.pic" ∧
  artifactPath (Sample2.kwNoCache) = "./chem_comp/cc-data.pic".
Proof.
  destruct (artifact_path_location Sample.kwPlain) as [H1 _].
  destruct (artifact_path_location Sample2.kwNoCache) as [H2 _].
  split; [rewrite H1|rewrite H2]; reflexivity.
Defined.

(** ** The depiction list *)

Section DepictLemmas.

Context {Mol : Type} (upper : string → string).
Implicit Types (oeMolD : gmap string Mol) (ccIdList : list string).

Lemma depictLoop_acc oeMolD ccIdList dL :
  depictLoop upper oeMolD ccIdList dL
  = dL ++ getMolDepictList upper oeMolD ccIdList.
Proof.
  unfold getMolDepictList. revert dL.
  induction ccIdList as [|ccId rest IH]; intros dL; simpl.
  - by rewrite app_nil_r.
  - destruct (oeMolD !! upper ccId) as [mol|]; [|apply IH].
    rewrite (IH (dL ++ _)), (IH [_]). by rewrite <-app_assoc.
Qed.

Lemma getMolDepictList_cons oeMolD ccId rest :
  getMolDepictList upper oeMolD (ccId :: rest)
  = match oeMolD !! upper ccId with
    | Some mol => [(upper ccId, mol, "Title: " +:+ upper ccId)]
    | None => []
    end ++ getMolDepictList upper oeMolD rest.
Proof.
  unfold getMolDepictList at 1. simpl.
  destruct (oeMolD !! upper ccId); by rewrite depictLoop_acc.
Qed.

(** X24.  [__getMolDepictList] lists, in the order of the input, the
    upper-cased identifiers found in the molecule dictionary, each with
    the molecule stored under it and the title ["Title: "] followed by the
    identifier; identifiers that are missing are left out. *)
Theorem getMolDepictList_entries oeMolD ccIdList :
  (λ e, e.1.1) <$> getMolDepictList upper oeMolD ccIdList
  = filter (λ k, is_Some (oeMolD !! k)) (upper <$> ccIdList) ∧
  Forall (λ e, oeMolD !! e.1.1 = Some e.1.2 ∧ e.2 = "Title: " +:+ e.1.1)
         (getMolDepictList upper oeMolD ccIdList).
Proof.
  induction ccIdList as [|ccId rest [IH1 IH2]]; [by split|].
  rewrite getMolDepictList_cons, fmap_cons, filter_cons, fmap_app.
  destruct (oeMolD !! upper ccId) as [mol|] eqn:Hm.
  - rewrite decide_True by (by exists mol). simpl. rewrite IH1.
    split; [done|]. constructor; [by split|done].
  - rewrite decide_False by (intros [? Hx]; simpl in Hx; congruence).
    simpl. by split.
Qed.

(** X25.  The depiction list of a concatenation is the concatenation of
    the depiction lists; it is never longer than the input, and as long
    exactly when every upper-cased identifier is in the dictionary. *)
Theorem getMolDepictList_app_length oeMolD ccIdList1 ccIdList2 :
  getMolDepictList upper oeMolD (ccIdList1 ++ ccIdList2)
  = getMolDepictList upper oeMolD ccIdList1
    ++ getMolDepictList upper oeMolD ccIdList2 ∧
  (length (getMolDepictList upper oeMolD ccIdList1) ≤ length ccIdList1)%nat ∧
  (length (getMolDepictList upper oeMolD ccIdList1) = length ccIdList1 ↔
   Forall (λ ccId, is_Some (oeMolD !! upper ccId)) ccIdList1).
Proof.
  assert (∀ l, (length (getMolDepictList upper oeMolD l) ≤ length l)%nat) as Hle.
  { induction l as [|ccId rest IH]; [done|].
    rewrite getMolDepictList_cons, length_app.
    destruct (oeMolD !! upper ccId); simpl; lia. }
  split_and!.
  - induction ccIdList1 as [|ccId rest IH]; [done|].
    rewrite <-app_comm_cons, !getMolDepictList_cons, IH. by rewrite app_assoc.
  - apply Hle.
  - induction ccIdList1 as [|ccId rest IH]; [by split; [constructor|]|].
    rewrite getMolDepictList_cons, length_app, Forall_cons.
    pose proof (Hle rest).
    destruct (oeMolD !! upper ccId) as [mol|] eqn:Hm; simpl.
    + rewrite <-IH. split; [intros; split; [by eexists|lia]|intros [_ ?]; lia].
    + split; [lia|]. by intros [[? ?] _].
Qed.

End DepictLemmas.

Example getMolDepictList_sample :
  getMolDepictList (λ s, s) Sample2.mols ["GLC"; "XXX"; "MAN"]
  = [("GLC", 24%nat, "Title: GLC"); ("MAN", 24%nat, "Title: MAN")].
Proof. vm_compute. reflexivity. Qed.

Lemma testCache_result_kind_witness :
  int_truthy (Some 29000) = true ∧
  testCache None (Some 29000) = VNone ∧
  testCache (Some ∅) (Some 29000) = VDict ∅.
Proof.
  split; [reflexivity|].
  apply (testCache_result_kind None (Some 29000)). reflexivity.
Defined.
